(** * ACS variable code generator ([bamcensus-acs/python/codegen.py])

    A shallow embedding of the extraction-and-generation pipeline: the
    label normaliser [to_name_path], the regular-expression scan of [run],
    the two emitters [write_csv] and [write_rust], and the driver [run]
    with the [__main__] guard.

    Text is modelled as [string] (ASCII code points; on them Python's
    [\w] is [A-Za-z0-9_] and [str.lower] maps [A-Z] to [a-z]).  The file
    system is a finite map from paths to file contents; I/O failures other
    than a missing source file are outside the model. *)

From Stdlib Require Import String Ascii List ZArith Lia Bool.
From stdpp Require Import base option gmap strings.
Import ListNotations.
Open Scope string_scope.

(** ** Characters and the Python string methods the script calls *)

Module Py.

Definition chr (n : nat) : ascii := ascii_of_nat n.
Definition str1 (c : ascii) : string := String c EmptyString.

Definition dq : string := str1 (chr 34).   (* the double quote *)
Definition nl : string := str1 (chr 10).   (* the line feed *)

Definition is_upper (c : ascii) : bool :=
  let n := nat_of_ascii c in (65 <=? n)%nat && (n <=? 90)%nat.
Definition is_lower (c : ascii) : bool :=
  let n := nat_of_ascii c in (97 <=? n)%nat && (n <=? 122)%nat.
Definition is_digit (c : ascii) : bool :=
  let n := nat_of_ascii c in (48 <=? n)%nat && (n <=? 57)%nat.

Definition lower_char (c : ascii) : ascii :=
  if is_upper c then ascii_of_nat (nat_of_ascii c + 32) else c.

(** [str.lower()] *)
Fixpoint lower (s : string) : string :=
  match s with
  | EmptyString => EmptyString
  | String c r => String (lower_char c) (lower r)
  end.

(** [s.startswith(p)] *)
Fixpoint startswith (p s : string) : bool :=
  match p, s with
  | EmptyString, _ => true
  | String a p', String b s' => if Ascii.eqb a b then startswith p' s' else false
  | String _ _, EmptyString => false
  end.

(** [s.replace(old, new)] for a non-empty [old]: occurrences are found
    left to right and do not overlap.  [skip] counts the characters of an
    occurrence that are still to be passed over. *)
Fixpoint replace_from (old new s : string) (skip : nat) : string :=
  match s with
  | EmptyString => EmptyString
  | String c r =>
      match skip with
      | S k => replace_from old new r k
      | O =>
          if startswith old s
          then new ++ replace_from old new r (String.length old - 1)
          else String c (replace_from old new r 0)
      end
  end.

Definition replace (old new s : string) : string := replace_from old new s 0.

(** [s.split(sep)] for a one-character separator: the pieces between the
    separators, so a string with [k] separators gives [k + 1] pieces. *)
Fixpoint split (sep : ascii) (s : string) : list string :=
  match s with
  | EmptyString => [EmptyString]
  | String c r =>
      if Ascii.eqb c sep then EmptyString :: split sep r
      else match split sep r with
           | p :: ps => String c p :: ps
           | [] => [String c EmptyString]
           end
  end.

(** [sep.join(pieces)] *)
Fixpoint join (sep : string) (pieces : list string) : string :=
  match pieces with
  | [] => EmptyString
  | [p] => p
  | p :: ps => p ++ sep ++ join sep ps
  end.

(** [" " * n]: the empty string when [n] is not positive. *)
Definition spaces (n : Z) : string :=
  string_of_list_ascii (repeat " "%char (Z.to_nat n)).

End Py.

(** ** [to_name_path] *)

Definition to_name_path (name : string) : string :=
  Py.replace " " "_" (Py.replace ":" EmptyString (Py.replace "!!" "." (Py.lower name))).

(** ** The fragment of Python's [re] that the row pattern uses

    A pattern is a sequence of items: literal characters, greedy
    repetitions of a one-character class, and the parentheses of capture
    groups.  [exec] is the backtracking matcher anchored at the start of
    its input: a greedy repetition first takes as many characters as it
    can and gives them back one at a time while the rest of the pattern
    fails.  It returns the input positions (as remaining suffixes) of the
    group parentheses it passed, and the unmatched rest. *)

Module Re.

Inductive item : Type :=
| Lit (c : ascii)               (* a literal character *)
| Star (cls : ascii -> bool)    (* X*  *)
| Plus (cls : ascii -> bool)    (* X+  *)
| Paren.                        (* an opening or closing group parenthesis *)

Definition lits (s : string) : list item := map Lit (list_ascii_of_string s).

(** [.] without DOTALL: any character but the line feed. *)
Definition dot (c : ascii) : bool := negb (Ascii.eqb c (Py.chr 10)).

(** [\w] *)
Definition word (c : ascii) : bool :=
  Py.is_upper c || Py.is_lower c || Py.is_digit c || Ascii.eqb c "_".

Fixpoint greedy {R : Type} (cls : ascii -> bool) (k : string -> option R)
    (s : string) : option R :=
  match s with
  | String c r =>
      if cls c
      then match greedy cls k r with
           | Some res => Some res
           | None => k s
           end
      else k s
  | EmptyString => k s
  end.

Fixpoint exec (p : list item) (s : string) : option (list string * string) :=
  match p with
  | [] => Some ([], s)
  | Lit c :: p' =>
      match s with
      | String d r => if Ascii.eqb c d then exec p' r else None
      | EmptyString => None
      end
  | Star cls :: p' => greedy cls (exec p') s
  | Plus cls :: p' =>
      match s with
      | String d r => if cls d then greedy cls (exec p') r else None
      | EmptyString => None
      end
  | Paren :: p' =>
      match exec p' s with
      | Some (marks, rest) => Some (s :: marks, rest)
      | None => None
      end
  end.

(** The text between two positions of the same input. *)
Definition between (from to : string) : string :=
  substring 0 (String.length from - String.length to) from.

(** The tuple [findall] builds for a pattern with two groups. *)
Definition groups2 (marks : list string) : string * string :=
  match marks with
  | [o1; c1; o2; c2] => (between o1 c1, between o2 c2)
  | _ => (EmptyString, EmptyString)
  end.

(** [re.findall(p, s)] for a pattern with two groups: the scan tries the
    pattern at each position from left to right and resumes after the end
    of each match ([skip] counts the characters of the last match still to
    be passed over; a match of the row pattern is never empty). *)
Fixpoint findall_from (p : list item) (s : string) (skip : nat)
    : list (string * string) :=
  match s with
  | EmptyString =>
      match exec p s with
      | Some (marks, _) => [groups2 marks]
      | None => []
      end
  | String _ r =>
      match skip with
      | S k => findall_from p r k
      | O =>
          match exec p s with
          | Some (marks, rest) =>
              groups2 marks
              :: findall_from p r (String.length s - String.length rest - 1)
          | None => findall_from p r 0
          end
      end
  end.

Definition findall (p : list item) (s : string) : list (string * string) :=
  findall_from p s 0.

End Re.

(** ** The row pattern of [run] and the extractor *)

(** [name_pat = "[\w:! ]"] *)
Definition name_pat (c : ascii) : bool :=
  Re.word c || Ascii.eqb c ":" || Ascii.eqb c "!" || Ascii.eqb c " ".

(** The two branches of [run] on [args.indent]. *)
Definition pattern (indent : Z) : list Re.item :=
  if (indent =? 0)%Z then
    Re.lits ("<tr><td><a href=" ++ Py.dq ++ "variables/") ++ [Re.Star Re.dot]
    ++ Re.lits (Py.dq ++ " name=" ++ Py.dq) ++ [Re.Star Re.dot]
    ++ Re.lits (Py.dq ++ ">")
    ++ [Re.Paren; Re.Plus Re.word; Re.Lit "_"; Re.Plus Re.word; Re.Paren]
    ++ Re.lits "</a></td><td>"
    ++ [Re.Paren; Re.Plus name_pat; Re.Paren]
    ++ Re.lits "</td>"
  else
    let sep := Py.spaces indent in
    Re.lits ("<tr>" ++ Py.nl ++ sep ++ "<td><a href=" ++ Py.dq ++ "variables/")
    ++ [Re.Star Re.dot]
    ++ Re.lits (Py.dq ++ " name=" ++ Py.dq) ++ [Re.Star Re.dot]
    ++ Re.lits (Py.dq ++ ">")
    ++ [Re.Paren; Re.Plus Re.word; Re.Lit "_"; Re.Plus Re.word; Re.Paren]
    ++ Re.lits ("</a></td>" ++ Py.nl ++ sep ++ "<td>")
    ++ [Re.Paren; Re.Plus name_pat; Re.Paren]
    ++ Re.lits "</td>".

(** [re.findall(pattern, contents)] *)
Definition extract (indent : Z) (contents : string) : list (string * string) :=
  Re.findall (pattern indent) contents.

(** ** [str.format] on the code template *)

Module Fmt.

(** [template.format] with keyword arguments [kw], for a template whose replacement fields are
    plain keyword names.  A doubled brace is an escaped brace, and a field
    in single braces is replaced by the value of that keyword.  [None]
    stands for the exception Python raises on a lone closing brace, an
    unclosed field or an unknown keyword.  [field] holds the name read so
    far while the scan is inside a replacement field. *)
Fixpoint format_from (t : string) (field : option string)
    (kw : list (string * string)) : option string :=
  match t with
  | EmptyString =>
      match field with
      | None => Some EmptyString
      | Some _ => None
      end
  | String c r =>
      match field with
      | Some name =>
          if Ascii.eqb c "}"
          then match List.find (fun e => String.eqb (fst e) name) kw with
               | Some (_, v) => option_map (append v) (format_from r None kw)
               | None => None
               end
          else format_from r (Some (name ++ Py.str1 c)) kw
      | None =>
          if Ascii.eqb c "{" then
            match r with
            | String "{" r' => option_map (String "{") (format_from r' None kw)
            | _ => format_from r (Some EmptyString) kw
            end
          else if Ascii.eqb c "}" then
            match r with
            | String "}" r' => option_map (String "}") (format_from r' None kw)
            | _ => None
            end
          else option_map (String c) (format_from r None kw)
      end
  end.

Definition format (t : string) (kw : list (string * string)) : option string :=
  format_from t None kw.

End Fmt.

(** ** Files, exceptions and the state the script runs in *)

Inductive exn : Type :=
| ValueError          (* the unpacking of [identifier.split] in [write_csv] *)
| FormatError         (* [str.format] on a malformed template *)
| FileNotFoundError.  (* [open(args.filename)] on a missing source *)

Inductive outcome (A : Type) : Type :=
| Returned (a : A)
| Raised (e : exn).
Arguments Returned {A} a.
Arguments Raised {A} e.

Module Fs.

(** [open(path, "w")]: creates the file or truncates it. *)
Definition open_w (path : string) (files : gmap string string) : gmap string string :=
  <[path := EmptyString]> files.

(** [f.write(data)] on the file opened at [path]. *)
Definition write (path data : string) (files : gmap string string) : gmap string string :=
  alter (fun old => old ++ data) path files.

(** [os.path.exists(path)] *)
Definition path_exists (path : string) (files : gmap string string) : bool :=
  bool_decide (is_Some (files !! path)).

End Fs.

(** ** [write_csv] *)

(** The loop of [write_csv] over the open file.  The [with] block closes
    the file on the way out of an exception as well, so what was written
    before it stays in the file. *)
Fixpoint write_csv_rows (matches : list (string * string)) (csv_filename : string)
    (files : gmap string string) : gmap string string * outcome unit :=
  match matches with
  | [] => (files, Returned tt)
  | (identifier, name) :: rest =>
      match Py.split "_" identifier with
      | [group_id; sgroup_id] =>
          let name_path := to_name_path name in
          write_csv_rows rest csv_filename
            (Fs.write csv_filename
               (group_id ++ "," ++ sgroup_id ++ "," ++ name_path ++ Py.nl) files)
      | _ => (files, Raised ValueError)
      end
  end.

Definition csv_header : string := "group,variable,path".

Definition write_csv (matches : list (string * string)) (csv_filename : string)
    (files : gmap string string) : gmap string string * outcome unit :=
  let files := Fs.open_w csv_filename files in
  let files := Fs.write csv_filename (csv_header ++ Py.nl) files in
  write_csv_rows matches csv_filename files.

(** ** [write_rust] *)

Definition class_name : string := "ClassName".

Definition to_string_gen (group name : string) : string :=
  "                C::" ++ group ++ " => String::from(" ++ Py.dq ++ name ++ Py.dq ++ ")".

Definition to_path_gen (group name : string) : string :=
  let path := to_name_path name in
  "                C::" ++ group ++ " => Ok(String::from(" ++ Py.dq ++ path ++ Py.dq ++ "))".

(** The raw template string of [write_rust], line by line. *)
Definition template : string :=
  Py.join Py.nl
    [ "use serde::{{Deserialize, Serialize}};"
    ; EmptyString
    ; "#[derive(Serialize, Deserialize)]"
    ; "#[serde(rename_all = " ++ Py.dq ++ "SCREAMING_SNAKE_CASE" ++ Py.dq ++ ")]"
    ; "pub enum {classname} {{"
    ; "{enums}"
    ; "}}"
    ; EmptyString
    ; "impl ToString for {classname} {{"
    ; "    fn to_string(&self) -> String {{"
    ; "        use {classname} as C;"
    ; "        match self {{"
    ; "{tostr}"
    ; "        }}"
    ; "    }}"
    ; "}}"
    ; EmptyString
    ; "impl {classname} {{"
    ; "    "
    ; "    fn to_path(&self) -> String {{"
    ; "        use {classname} as C;"
    ; "        match self {{"
    ; "{topath}"
    ; "        }}"
    ; "    }}"
    ; "}}"
    ; "    " ].

(** The bodies of the three list comprehensions over [matches]. *)
Definition variant_line (m : string * string) : string := "    " ++ fst m.
Definition label_arm (m : string * string) : string := to_string_gen (fst m) (snd m).
Definition path_arm (m : string * string) : string := to_path_gen (fst m) (snd m).

Definition enums (matches : list (string * string)) : string :=
  Py.join ("," ++ Py.nl) (map variant_line matches).
Definition tostr (matches : list (string * string)) : string :=
  Py.join ("," ++ Py.nl) (map label_arm matches).
Definition topath (matches : list (string * string)) : string :=
  Py.join ("," ++ Py.nl) (map path_arm matches).

Definition codegen (matches : list (string * string)) : option string :=
  Fmt.format template
    [ ("classname", class_name); ("enums", enums matches)
    ; ("tostr", tostr matches); ("topath", topath matches) ].

Definition write_rust (matches : list (string * string)) (rust_filename : string)
    (files : gmap string string) : gmap string string * outcome unit :=
  match codegen matches with
  | Some code =>
      (Fs.write rust_filename code (Fs.open_w rust_filename files), Returned tt)
  | None => (files, Raised FormatError)
  end.

(** ** The driver [run] and the script's entry point *)

Record Args : Type := mkArgs
  { filename : string            (* positional *)
  ; csv : option string          (* --csv *)
  ; rs : option string           (* --rs *)
  ; indent : Z                   (* --indent, default 2 *)
  ; overwrite : bool }.          (* --overwrite *)

Inductive event : Type :=
| Printed (line : string)   (* [print(line)] *)
| UsagePrinted.             (* [parser.print_usage()] *)

Record World : Type := mkWorld
  { files : gmap string string
  ; stdout : list event }.

Definition no_matches_message : string :=
  "no matches found in source file, check formatting".

(** The test [run] makes for each of its two targets: the option was
    given, and the path does not exist yet or [--overwrite] was given.
    It yields the path to write, if any. *)
Definition wants (target : option string) (args : Args) (fs : gmap string string)
    : option string :=
  match target with
  | Some path =>
      if negb (Fs.path_exists path fs) || overwrite args then Some path else None
  | None => None
  end.

Definition run (args : Args) (w : World) : World * outcome Z :=
  match files w !! filename args with
  | None => (w, Raised FileNotFoundError)
  | Some contents =>
      let matches := extract (indent args) contents in
      if (List.length matches =? 0)%nat then
        (mkWorld (files w) (stdout w ++ [Printed no_matches_message; UsagePrinted]),
         Returned 1%Z)
      else
        let '(fs1, r1) :=
          match wants (csv args) args (files w) with
          | Some path => write_csv matches path (files w)
          | None => (files w, Returned tt)
          end in
        match r1 with
        | Raised e => (mkWorld fs1 (stdout w), Raised e)
        | Returned _ =>
            let '(fs2, r2) :=
              match wants (rs args) args fs1 with
              | Some path => write_rust matches path fs1
              | None => (fs1, Returned tt)
              end in
            match r2 with
            | Raised e => (mkWorld fs2 (stdout w), Raised e)
            | Returned _ => (mkWorld fs2 (stdout w), Returned 0%Z)
            end
        end
  end.

(** The [__main__] guard calls [run()] and drops what it returns.  The
    interpreter then exits with status 0, or with status 1 after an
    uncaught exception. *)
Definition main (args : Args) (w : World) : World * Z :=
  let '(w', r) := run args w in
  (w', match r with
       | Returned _ => 0%Z
       | Raised _ => 1%Z
       end).

(** ** Vocabulary of the statements *)

(** Every character of [s] is in the class [cls]. *)
Fixpoint all_chars (cls : ascii -> bool) (s : string) : bool :=
  match s with
  | EmptyString => true
  | String c r => cls c && all_chars cls r
  end.

(** The number of occurrences of the character [c] in [s]. *)
Fixpoint count_char (c : ascii) (s : string) : nat :=
  match s with
  | EmptyString => 0
  | String d r => (if Ascii.eqb d c then 1 else 0) + count_char c r
  end.

(** [sub] occurs somewhere in [s] (Python's [sub in s]). *)
Fixpoint contains (sub s : string) : bool :=
  Py.startswith sub s
  || match s with
     | EmptyString => false
     | String _ r => contains sub r
     end.

Definition is_newline (c : ascii) : bool := Ascii.eqb c (Py.chr 10).
Definition not_newline (c : ascii) : bool := negb (is_newline c).

(** The lines of a text. *)
Definition lines (text : string) : list string := Py.split (Py.chr 10) text.

(** [t] is what remains of [s] after some prefix. *)
Definition suffix_of (t s : string) : Prop := exists x : string, s = x ++ t.

(** *** What it means for a pattern to match

    [Matches p s marks rest]: the pattern [p] matches a prefix of [s]
    leaving [rest], and [marks] are the inputs that remained when each
    group parenthesis was passed. *)
Inductive Matches : list Re.item -> string -> list string -> string -> Prop :=
| M_end (s : string) :
    Matches [] s [] s
| M_lit (c : ascii) (p : list Re.item) (s : string) marks rest :
    Matches p s marks rest ->
    Matches (Re.Lit c :: p) (String c s) marks rest
| M_star (cls : ascii -> bool) (p : list Re.item) (x s : string) marks rest :
    all_chars cls x = true ->
    Matches p s marks rest ->
    Matches (Re.Star cls :: p) (x ++ s) marks rest
| M_plus (cls : ascii -> bool) (p : list Re.item) (c : ascii) (x s : string) marks rest :
    cls c = true ->
    all_chars cls x = true ->
    Matches p s marks rest ->
    Matches (Re.Plus cls :: p) (String c (x ++ s)) marks rest
| M_paren (p : list Re.item) (s : string) marks rest :
    Matches p s marks rest ->
    Matches (Re.Paren :: p) s (s :: marks) rest.

(** *** The normaliser as the specification words it

    Lowercase the whole string, turn each pair of exclamation marks into a
    full stop, drop the colons, turn the spaces into underscores; every
    other character is copied. *)

Fixpoint bangs_to_dots (s : string) : string :=
  match s with
  | String c r =>
      match r with
      | String d r' =>
          if Ascii.eqb c "!" && Ascii.eqb d "!"
          then String "." (bangs_to_dots r')
          else String c (bangs_to_dots r)
      | EmptyString => s
      end
  | EmptyString => EmptyString
  end.

Fixpoint drop_colons (s : string) : string :=
  match s with
  | String c r => if Ascii.eqb c ":" then drop_colons r else String c (drop_colons r)
  | EmptyString => EmptyString
  end.

Fixpoint spaces_to_underscores (s : string) : string :=
  match s with
  | String c r => String (if Ascii.eqb c " " then "_"%char else c) (spaces_to_underscores r)
  | EmptyString => EmptyString
  end.

Definition spec_normalize (label : string) : string :=
  spaces_to_underscores (drop_colons (bangs_to_dots (Py.lower label))).

(** *** Row fragments

    The text of one table row as the pattern of [run] expects it at a
    given indent: on one line when the indent is 0, otherwise with each of
    the two cells on a line of its own after [indent] spaces. *)

Record Row : Type := mkRow
  { href : string          (* what follows variables/ in the link target *)
  ; anchor : string        (* the value of the name attribute *)
  ; ident : string         (* the link text *)
  ; label : string }.      (* the text of the second cell *)

Definition row_sep (indent : Z) : string :=
  if (indent =? 0)%Z then EmptyString else Py.nl ++ Py.spaces indent.

Definition row_text (indent : Z) (r : Row) : string :=
  let sep := row_sep indent in
  "<tr>" ++ sep ++ "<td><a href=" ++ Py.dq ++ "variables/" ++ href r ++ Py.dq
  ++ " name=" ++ Py.dq ++ anchor r ++ Py.dq ++ ">" ++ ident r ++ "</a></td>"
  ++ sep ++ "<td>" ++ label r ++ "</td>".

(** No markup opens inside [s]: it holds no less-than sign. *)
Definition not_lt (c : ascii) : bool := negb (Ascii.eqb c "<").
Definition markup_free (s : string) : Prop := all_chars not_lt s = true.

(** What closes a row in a table laid out at the given indent, and the
    markup of a table made of well-formed rows and nothing else. *)
Definition row_end (indent : Z) : string :=
  if (indent =? 0)%Z then "</tr>" else Py.nl ++ "</tr>" ++ Py.nl.

Fixpoint document (indent : Z) (rows : list Row) : string :=
  match rows with
  | [] => EmptyString
  | r :: rest => row_text indent r ++ row_end indent ++ document indent rest
  end.

(** The record a row stands for. *)
Definition record_of (r : Row) : string * string := (ident r, label r).

(** The shape [\w+_\w+] of an identifier and [[\w:! ]+] of a label. *)
Definition identifier_shape (s : string) : Prop :=
  exists g sg : string,
    s = g ++ "_" ++ sg /\ g <> EmptyString /\ sg <> EmptyString
    /\ all_chars Re.word g = true /\ all_chars Re.word sg = true.

Definition label_shape (s : string) : Prop :=
  s <> EmptyString /\ all_chars name_pat s = true.

Definition record_shape (m : string * string) : Prop :=
  identifier_shape (fst m) /\ label_shape (snd m).

(** A row whose cells the pattern accepts: attribute values on one line,
    an identifier as link text and a label in the second cell. *)
Definition row_shape (r : Row) : Prop :=
  all_chars Re.dot (href r) = true /\ all_chars Re.dot (anchor r) = true
  /\ identifier_shape (ident r) /\ label_shape (label r).

(** *** Rows of the CSV file *)

(** [row] is the CSV line of the record [m]: its first two fields joined
    by an underscore give back the identifier, the third is the
    normalised label. *)
Definition csv_row_of (m : string * string) (row : string) : Prop :=
  exists group sub_group : string,
    group ++ "_" ++ sub_group = fst m
    /\ count_char "_" group = 0 /\ count_char "_" sub_group = 0
    /\ row = group ++ "," ++ sub_group ++ "," ++ to_name_path (snd m) ++ Py.nl.

(** The text of a file made of the given lines, each with its own
    terminator already in it. *)
Definition text_of (rows : list string) : string :=
  fold_right append EmptyString rows.

(** The identifier holds exactly one underscore. *)
Definition one_underscore (m : string * string) : Prop :=
  count_char "_" (fst m) = 1.

(** The identifier does not unpack into exactly two parts. *)
Definition malformed (m : string * string) : Prop :=
  List.length (Py.split "_" (fst m)) <> 2.

(** *** Reading the generated source back *)

(** The GROUP token of an identifier: what precedes its first underscore. *)
Definition group_token (identifier : string) : string :=
  match Py.split "_" identifier with
  | g :: _ => g
  | [] => EmptyString
  end.

(** The elements of a list in the order they are first seen. *)
Fixpoint first_seen (seen l : list string) : list string :=
  match l with
  | [] => []
  | x :: r =>
      if existsb (String.eqb x) seen then first_seen seen r
      else x :: first_seen (x :: seen) r
  end.

(** The lines after the first line [opening], up to the next line [closing]. *)
Fixpoint block_body (closing : string) (ls : list string) : list string :=
  match ls with
  | [] => []
  | l :: r => if String.eqb l closing then [] else l :: block_body closing r
  end.

Fixpoint block (opening closing : string) (ls : list string) : list string :=
  match ls with
  | [] => []
  | l :: r => if String.eqb l opening then block_body closing r
              else block opening closing r
  end.

(** The lines that follow the first line [opening]. *)
Fixpoint after (opening : string) (ls : list string) : list string :=
  match ls with
  | [] => []
  | l :: r => if String.eqb l opening then r else after opening r
  end.

(** A line without the comma that separates it from the next entry. *)
Fixpoint strip_comma (l : string) : string :=
  match l with
  | EmptyString => EmptyString
  | String c EmptyString => if Ascii.eqb c "," then EmptyString else l
  | String c r => String c (strip_comma r)
  end.

Definition entries (body : list string) : list string :=
  List.filter (fun l => negb (String.eqb l EmptyString)) (map strip_comma body).

(** The variant declarations of the enum, the arms of [to_string] and the
    arms of [to_path] in a generated source text. *)
Definition variant_decls (code : string) : list string :=
  entries (block "pub enum ClassName {" "}" (lines code)).

Definition label_arms (code : string) : list string :=
  entries (block "        match self {" "        }"
             (after "impl ToString for ClassName {" (lines code))).

Definition path_arms (code : string) : list string :=
  entries (block "        match self {" "        }"
             (after "impl ClassName {" (lines code))).

(** The GROUP tokens of the declared variants, in declaration order; a
    declaration is the variant name after four spaces. *)
Definition variant_groups (code : string) : list string :=
  map (fun d => group_token (substring 4 (String.length d - 4) d))
      (variant_decls code).

(** The lines of entries joined with a comma and a line feed. *)
Fixpoint comma_lines (ds : list string) : list string :=
  match ds with
  | [] => [EmptyString]
  | [d] => [d]
  | d :: ds' => (d ++ ",") :: comma_lines ds'
  end.

(** The template once formatted: its fixed lines around the three
    generated sections. *)
Definition head_lines : list string :=
  [ "use serde::{Deserialize, Serialize};"
  ; EmptyString
  ; "#[derive(Serialize, Deserialize)]"
  ; "#[serde(rename_all = " ++ Py.dq ++ "SCREAMING_SNAKE_CASE" ++ Py.dq ++ ")]"
  ; "pub enum ClassName {" ].

Definition mid1_lines : list string :=
  [ "}"
  ; EmptyString
  ; "impl ToString for ClassName {"
  ; "    fn to_string(&self) -> String {"
  ; "        use ClassName as C;"
  ; "        match self {" ].

Definition mid2_lines : list string :=
  [ "        }"
  ; "    }"
  ; "}"
  ; EmptyString
  ; "impl ClassName {"
  ; "    "
  ; "    fn to_path(&self) -> String {"
  ; "        use ClassName as C;"
  ; "        match self {" ].

Definition tail_lines : list string :=
  [ "        }"
  ; "    }"
  ; "}"
  ; "    " ].

Definition rust_text (matches : list (string * string)) : string :=
  Py.join Py.nl head_lines ++ Py.nl ++ enums matches ++ Py.nl
  ++ Py.join Py.nl mid1_lines ++ Py.nl ++ tostr matches ++ Py.nl
  ++ Py.join Py.nl mid2_lines ++ Py.nl ++ topath matches ++ Py.nl
  ++ Py.join Py.nl tail_lines.

(** ** Vocabulary of the further properties *)

(** The characters a normalised label of the extractor is made of. *)
Definition path_char (c : ascii) : bool :=
  Py.is_lower c || Py.is_digit c || Ascii.eqb c "_" || Ascii.eqb c "."
  || Ascii.eqb c "!".

Definition is_colon (c : ascii) : bool := Ascii.eqb c ":".

(** The number of positions of [s] at which [sub] starts. *)
Fixpoint count_starts (sub s : string) : nat :=
  (if Py.startswith sub s then 1 else 0)
  + match s with
    | EmptyString => 0
    | String _ r => count_starts sub r
    end.

(** A CSV text read back: its lines, each split at the commas. *)
Definition csv_cells (text : string) : list (list string) :=
  map (Py.split ",") (lines text).

(** A table in which other text surrounds the rows: [before] comes
    first, and each row is followed by a gap of its own. *)
Fixpoint rows_with_gaps (indent : Z) (rows : list (Row * string)) : string :=
  match rows with
  | [] => EmptyString
  | (r, gap) :: rest => row_text indent r ++ gap ++ rows_with_gaps indent rest
  end.

(** A stretch of text in which no row opens. *)
Definition quiet (text : string) : Prop := contains "<tr>" text = false.

(** What every match at a non-zero indent starts with. *)
Definition row_opening (indent : Z) : string :=
  "<tr>" ++ Py.nl ++ Py.spaces indent ++ "<".

(** The attribute values of a row hold no markup. *)
Definition plain_attributes (r : Row) : Prop :=
  markup_free (href r) /\ markup_free (anchor r).

(** What the loop of [write_csv] appends to the open file and how it
    ends, as a function of the records alone. *)
Fixpoint csv_rows_text (matches : list (string * string)) : string * outcome unit :=
  match matches with
  | [] => (EmptyString, Returned tt)
  | (identifier, name) :: rest =>
      match Py.split "_" identifier with
      | [group_id; sgroup_id] =>
          let '(text, r) := csv_rows_text rest in
          (group_id ++ "," ++ sgroup_id ++ "," ++ to_name_path name ++ Py.nl ++ text, r)
      | _ => (EmptyString, Raised ValueError)
      end
  end.

(** The row pattern after the repetition that reads the link target,
    and the text of a row split the same way. *)
Definition pattern_tail (indent : Z) : list Re.item :=
  Re.lits (Py.dq ++ " name=" ++ Py.dq) ++ [Re.Star Re.dot]
  ++ Re.lits (Py.dq ++ ">")
  ++ [Re.Paren; Re.Plus Re.word; Re.Lit "_"; Re.Plus Re.word; Re.Paren]
  ++ Re.lits ("</a></td>" ++ row_sep indent ++ "<td>")
  ++ [Re.Paren; Re.Plus name_pat; Re.Paren]
  ++ Re.lits "</td>".

Definition row_head (indent : Z) : string :=
  "<tr>" ++ row_sep indent ++ "<td><a href=" ++ Py.dq ++ "variables/".

Definition row_tail (indent : Z) (r : Row) : string :=
  Py.dq ++ " name=" ++ Py.dq ++ anchor r ++ Py.dq ++ ">" ++ ident r
  ++ "</a></td>" ++ row_sep indent ++ "<td>" ++ label r ++ "</td>".

(** A table at indent 0 with each row on a line of its own. *)
Fixpoint document_lines (rows : list Row) : string :=
  match rows with
  | [] => EmptyString
  | r :: rest => row_text 0 r ++ "</tr>" ++ Py.nl ++ document_lines rest
  end.

(** No double quote inside [s]. *)
Definition not_dq (c : ascii) : bool := negb (Ascii.eqb c (Py.chr 34)).
Definition quote_free (s : string) : Prop := all_chars not_dq s = true.

(** ** Sample inputs *)

Module Sample.

Definition row_a : Row :=
  mkRow "B01001_001E.html" "B01001_001E" "B01001_001E" "Estimate!!Total:".
Definition row_b : Row :=
  mkRow "B01002_001E.html" "B01002_001E" "B01002_001E" "Estimate!!Median age".
(** A row whose identifier has a second underscore. *)
Definition row_c : Row :=
  mkRow "B01003_001_A.html" "B01003_001_A" "B01003_001_A" "Estimate!!Total".

(** Two rows of a table with the line breaks elided: one line. *)
Definition one_line : string := document 0 [row_a; row_b].

(** The same two rows, and then three, laid out with two-space indents. *)
Definition indented : string := document 2 [row_a; row_b].

Definition indented3 : string := document 2 [row_a; row_b; row_c].

Definition records : list (string * string) :=
  [ ("B01001_001E", "Estimate!!Total:"); ("B01002_001E", "Estimate!!Median age") ].

Definition records3 : list (string * string) :=
  records ++ [ ("B01003_001_A", "Estimate!!Total") ].

(** A source without any table row. *)
Definition no_rows : string := "<html><body><p>nothing here</p></body></html>".

Definition disk (contents : string) : gmap string string :=
  <[ "out.rs" := "old code" ]> (<[ "out.csv" := "old table" ]>
    (<[ "acs.html" := contents ]> ∅)).

Definition args (overwrite : bool) : Args :=
  mkArgs "acs.html" (Some "out.csv") (Some "out.rs") 2 overwrite.

End Sample.

(** * Properties *)

#[local] Arguments String.append !s1 s2 : simpl nomatch.
#[local] Arguments Ascii.eqb : simpl never.

(** ** Strings *)

Section StringFacts.

Lemma append_nil_r (s : string) : s ++ EmptyString = s.
Proof. induction s as [|c s IH]; simpl; [reflexivity | now f_equal]. Qed.

Lemma append_assoc (a b c : string) : (a ++ b) ++ c = a ++ b ++ c.
Proof. induction a as [|x a IH]; simpl; [reflexivity | now f_equal]. Qed.

Lemma length_append (a b : string) :
  String.length (a ++ b) = String.length a + String.length b.
Proof. induction a as [|x a IH]; simpl; [reflexivity | now rewrite IH]. Qed.

Lemma append_inv_head (a b c : string) : a ++ b = a ++ c -> b = c.
Proof. induction a as [|x a IH]; simpl; intros H; [assumption | injection H; auto]. Qed.

Lemma all_chars_append (cls : ascii -> bool) (a b : string) :
  all_chars cls (a ++ b) = all_chars cls a && all_chars cls b.
Proof.
  induction a as [|x a IH]; simpl; [reflexivity |].
  now rewrite IH, andb_assoc.
Qed.

Lemma all_chars_impl (P Q : ascii -> bool) (s : string) :
  (forall c, P c = true -> Q c = true) ->
  all_chars P s = true -> all_chars Q s = true.
Proof.
  intros HPQ. induction s as [|c s IH]; simpl; [reflexivity |].
  intros [Hc Hs]%andb_true_iff. rewrite (HPQ _ Hc), (IH Hs). reflexivity.
Qed.

Lemma count_char_append (c : ascii) (a b : string) :
  count_char c (a ++ b) = count_char c a + count_char c b.
Proof. induction a as [|x a IH]; simpl; [reflexivity | rewrite IH; lia]. Qed.

Lemma count_char_all (c : ascii) (cls : ascii -> bool) (s : string) :
  cls c = false -> all_chars cls s = true -> count_char c s = 0.
Proof.
  intros Hc. induction s as [|x s IH]; simpl; [reflexivity |].
  intros [Hx Hs]%andb_true_iff.
  destruct (Ascii.eqb_spec x c) as [->|_]; [congruence | now rewrite IH].
Qed.

End StringFacts.

(** ** The normaliser *)

Section Normaliser.

Lemma lower_char_eqb (c : ascii) :
  Ascii.eqb (Py.lower_char c) "!" = Ascii.eqb c "!"
  /\ Ascii.eqb (Py.lower_char c) ":" = Ascii.eqb c ":"
  /\ Ascii.eqb (Py.lower_char c) " " = Ascii.eqb c " ".
Proof. destruct c as [[] [] [] [] [] [] [] []]; vm_compute; auto. Qed.

Lemma replace_from_0 (old new : string) (c : ascii) (r : string) :
  Py.replace_from old new (String c r) 0 =
  if Py.startswith old (String c r)
  then new ++ Py.replace_from old new r (String.length old - 1)
  else String c (Py.replace_from old new r 0).
Proof. reflexivity. Qed.

Lemma replace_from_S (old new : string) (c : ascii) (r : string) (k : nat) :
  Py.replace_from old new (String c r) (S k) = Py.replace_from old new r k.
Proof. reflexivity. Qed.

Lemma startswith_bangs (a d : ascii) (r : string) :
  Py.startswith "!!" (String a (String d r)) = Ascii.eqb a "!" && Ascii.eqb d "!".
Proof.
  cbn [Py.startswith].
  rewrite (Ascii.eqb_sym "!"%char a), (Ascii.eqb_sym "!"%char d).
  destruct (Ascii.eqb a "!"), (Ascii.eqb d "!"); reflexivity.
Qed.

Lemma bangs_to_dots_2 (a d : ascii) (r : string) :
  bangs_to_dots (String a (String d r)) =
  if Ascii.eqb a "!" && Ascii.eqb d "!"
  then String "." (bangs_to_dots r)
  else String a (bangs_to_dots (String d r)).
Proof. reflexivity. Qed.

Lemma replace_bangs (s : string) :
  Py.replace_from "!!" "." s 0 = bangs_to_dots s
  /\ (forall d r, s = String d r -> Py.replace_from "!!" "." r 0 = bangs_to_dots r).
Proof.
  induction s as [|a s [IH1 IH2]]; [split; [reflexivity | discriminate] |].
  split; [| intros d r [= _ <-]; exact IH1].
  destruct s as [|d r].
  - rewrite replace_from_0. cbn [Py.startswith].
    destruct (Ascii.eqb "!" a); reflexivity.
  - rewrite replace_from_0, startswith_bangs, bangs_to_dots_2.
    destruct (Ascii.eqb a "!" && Ascii.eqb d "!").
    + change (String.length "!!" - 1) with 1. rewrite replace_from_S.
      now rewrite (IH2 d r eq_refl).
    + now rewrite IH1.
Qed.

Lemma replace_colons (s : string) :
  Py.replace ":" EmptyString s = drop_colons s.
Proof.
  unfold Py.replace. induction s as [|a s IH]; [reflexivity |].
  rewrite replace_from_0. cbn [Py.startswith drop_colons].
  rewrite (Ascii.eqb_sym ":"%char a).
  destruct (Ascii.eqb a ":"); cbn; now rewrite IH.
Qed.

Lemma replace_spaces (s : string) :
  Py.replace " " "_" s = spaces_to_underscores s.
Proof.
  unfold Py.replace. induction s as [|a s IH]; [reflexivity |].
  rewrite replace_from_0. cbn [Py.startswith spaces_to_underscores].
  rewrite (Ascii.eqb_sym " "%char a).
  destruct (Ascii.eqb a " "); cbn; now rewrite IH.
Qed.

Lemma to_name_path_spec (name : string) : to_name_path name = spec_normalize name.
Proof.
  unfold to_name_path, spec_normalize, Py.replace at 3.
  rewrite (proj1 (replace_bangs _)), replace_colons, replace_spaces. reflexivity.
Qed.

Lemma contains_cons (sub : string) (c : ascii) (r : string) :
  contains sub (String c r) = Py.startswith sub (String c r) || contains sub r.
Proof. reflexivity. Qed.

Lemma startswith_char (x c : ascii) (r : string) :
  Py.startswith (String x EmptyString) (String c r) = Ascii.eqb c x.
Proof.
  cbn [Py.startswith]. rewrite (Ascii.eqb_sym x c).
  destruct (Ascii.eqb c x); reflexivity.
Qed.

Lemma lower_cons (c : ascii) (r : string) :
  Py.lower (String c r) = String (Py.lower_char c) (Py.lower r).
Proof. reflexivity. Qed.

Lemma contains_char_lower (x : ascii) (s : string) :
  (forall c, Ascii.eqb (Py.lower_char c) x = Ascii.eqb c x) ->
  contains (String x EmptyString) (Py.lower s) = contains (String x EmptyString) s.
Proof.
  intros Hx. induction s as [|a s IH]; [reflexivity |].
  rewrite lower_cons, !contains_cons, !startswith_char, IH, Hx. reflexivity.
Qed.

Lemma contains_bangs_lower (s : string) :
  contains "!!" (Py.lower s) = contains "!!" s.
Proof.
  induction s as [|a s IH]; [reflexivity |].
  rewrite lower_cons, !contains_cons, IH. f_equal.
  destruct s as [|d r].
  - cbn [Py.lower Py.startswith].
    destruct (Ascii.eqb "!" (Py.lower_char a)), (Ascii.eqb "!" a); reflexivity.
  - rewrite lower_cons, !startswith_bangs.
    now rewrite (proj1 (lower_char_eqb a)), (proj1 (lower_char_eqb d)).
Qed.

Lemma bangs_to_dots_id (s : string) :
  contains "!!" s = false -> bangs_to_dots s = s.
Proof.
  induction s as [|a s IH]; [reflexivity |].
  rewrite contains_cons. intros [H1 H2]%orb_false_iff.
  destruct s as [|d r]; [reflexivity |].
  rewrite bangs_to_dots_2, (IH H2).
  rewrite startswith_bangs in H1. now rewrite H1.
Qed.

Lemma drop_colons_id (s : string) : contains ":" s = false -> drop_colons s = s.
Proof.
  induction s as [|a s IH]; [reflexivity |].
  rewrite contains_cons, (startswith_char ":" a s).
  intros [H1 H2]%orb_false_iff.
  cbn [drop_colons]. now rewrite H1, (IH H2).
Qed.

Lemma spaces_to_underscores_id (s : string) :
  contains " " s = false -> spaces_to_underscores s = s.
Proof.
  induction s as [|a s IH]; [reflexivity |].
  rewrite contains_cons, (startswith_char " " a s).
  intros [H1 H2]%orb_false_iff.
  cbn [spaces_to_underscores]. now rewrite H1, (IH H2).
Qed.

Lemma to_name_path_plain (name : string) :
  contains "!!" name = false ->
  contains ":" name = false ->
  contains " " name = false ->
  to_name_path name = Py.lower name.
Proof.
  intros Hb Hc Hs. rewrite to_name_path_spec. unfold spec_normalize.
  rewrite bangs_to_dots_id by now rewrite contains_bangs_lower.
  rewrite drop_colons_id
    by (rewrite (contains_char_lower ":"); [exact Hc | apply lower_char_eqb]).
  rewrite spaces_to_underscores_id
    by (rewrite (contains_char_lower " "); [exact Hs | apply lower_char_eqb]).
  reflexivity.
Qed.

End Normaliser.

(** ** The matcher *)

Section Matcher.

Lemma greedy_sound {R : Type} (cls : ascii -> bool) (k : string -> option R)
    (s : string) (res : R) :
  Re.greedy cls k s = Some res ->
  exists x t, s = x ++ t /\ all_chars cls x = true /\ k t = Some res.
Proof.
  induction s as [|c s IH]; cbn [Re.greedy].
  - intros H. exists EmptyString, EmptyString. auto.
  - destruct (cls c) eqn:Hc.
    + destruct (Re.greedy cls k s) as [res'|] eqn:Hg.
      * intros [= <-]. destruct (IH eq_refl) as (x & t & -> & Hx & Hk).
        exists (String c x), t. cbn [all_chars]. rewrite Hc, Hx. auto.
      * intros H. exists EmptyString, (String c s). auto.
    + intros H. exists EmptyString, (String c s). auto.
Qed.

Lemma greedy_some {R : Type} (cls : ascii -> bool) (k : string -> option R)
    (s : string) :
  is_Some (k s) -> is_Some (Re.greedy cls k s).
Proof.
  intros Hk. destruct s as [|c s]; cbn [Re.greedy]; [assumption |].
  destruct (cls c); [| assumption].
  destruct (Re.greedy cls k s); [eauto | assumption].
Qed.

Lemma greedy_complete {R : Type} (cls : ascii -> bool) (k : string -> option R)
    (x t : string) :
  all_chars cls x = true -> is_Some (k t) -> is_Some (Re.greedy cls k (x ++ t)).
Proof.
  intros Hx Hk. induction x as [|c x IH]; [now apply greedy_some |].
  cbn [all_chars] in Hx. apply andb_true_iff in Hx as [Hc Hx].
  cbn [append Re.greedy]. rewrite Hc.
  destruct (IH Hx) as [res ->]. eauto.
Qed.

Lemma exec_sound (p : list Re.item) :
  forall s marks rest,
    Re.exec p s = Some (marks, rest) -> Matches p s marks rest.
Proof.
  induction p as [|[c|cls|cls|] p IH]; intros s marks rest; cbn [Re.exec].
  - intros [= <- <-]. constructor.
  - destruct s as [|d r]; [discriminate |].
    destruct (Ascii.eqb_spec c d) as [->|_]; [| discriminate].
    intros H. constructor. now apply IH.
  - intros (x & t & -> & Hx & Hk)%greedy_sound. constructor; auto.
  - destruct s as [|d r]; [discriminate |].
    destruct (cls d) eqn:Hd; [| discriminate].
    intros (x & t & -> & Hx & Hk)%greedy_sound. constructor; auto.
  - destruct (Re.exec p s) as [[ms e]|] eqn:He; [| discriminate].
    intros [= <- <-]. constructor. now apply IH.
Qed.

Lemma exec_complete (p : list Re.item) (s : string) marks rest :
  Matches p s marks rest -> is_Some (Re.exec p s).
Proof.
  induction 1 as [s|c p s marks rest _ IH|cls p x s marks rest Hx _ IH
                 |cls p c x s marks rest Hc Hx _ IH|p s marks rest _ IH];
    cbn [Re.exec].
  - eauto.
  - now rewrite Ascii.eqb_refl.
  - now apply greedy_complete.
  - rewrite Hc. now apply greedy_complete.
  - destruct IH as [[ms e] ->]. eauto.
Qed.

(** Literal stretches of a pattern are read off the input as they are. *)
Lemma lits_append (a b : string) : Re.lits (a ++ b) = (Re.lits a ++ Re.lits b)%list.
Proof.
  unfold Re.lits. induction a as [|c a IH]; [reflexivity |].
  cbn. now rewrite IH.
Qed.

Lemma Matches_lits (x : string) (p : list Re.item) (s : string) marks rest :
  Matches (Re.lits x ++ p)%list s marks rest ->
  exists t, s = x ++ t /\ Matches p t marks rest.
Proof.
  revert s. induction x as [|c x IH]; intros s H.
  - exists s. auto.
  - cbn in H. inversion H as [|c' p' s' ms e H'| | |]; subst.
    destruct (IH _ H') as (t & -> & Ht). exists t. auto.
Qed.

Lemma Matches_lits_intro (x : string) (p : list Re.item) (t : string) marks rest :
  Matches p t marks rest -> Matches (Re.lits x ++ p)%list (x ++ t) marks rest.
Proof.
  intros H. induction x as [|c x IH]; [exact H |].
  cbn. constructor. exact IH.
Qed.

Lemma substring_prefix (x y : string) :
  substring 0 (String.length x) (x ++ y) = x.
Proof.
  induction x as [|c x IH]; cbn.
  - destruct y; reflexivity.
  - now rewrite IH.
Qed.

Lemma between_append (x y : string) : Re.between (x ++ y) y = x.
Proof.
  unfold Re.between. rewrite length_append.
  replace (String.length x + String.length y - String.length y)
    with (String.length x) by lia.
  apply substring_prefix.
Qed.

(** The row pattern at either indent, with the separator factored out. *)
Lemma pattern_sep (indent : Z) :
  pattern indent =
  (Re.lits ("<tr>" ++ row_sep indent ++ "<td><a href=" ++ Py.dq ++ "variables/")
   ++ [Re.Star Re.dot]
   ++ Re.lits (Py.dq ++ " name=" ++ Py.dq) ++ [Re.Star Re.dot]
   ++ Re.lits (Py.dq ++ ">")
   ++ [Re.Paren; Re.Plus Re.word; Re.Lit "_"; Re.Plus Re.word; Re.Paren]
   ++ Re.lits ("</a></td>" ++ row_sep indent ++ "<td>")
   ++ [Re.Paren; Re.Plus name_pat; Re.Paren]
   ++ Re.lits "</td>")%list.
Proof. unfold pattern, row_sep. destruct (indent =? 0)%Z; reflexivity. Qed.

Lemma Matches_star_inv cls (p : list Re.item) (s : string) marks rest :
  Matches (Re.Star cls :: p) s marks rest ->
  exists x t, s = x ++ t /\ all_chars cls x = true /\ Matches p t marks rest.
Proof. inversion 1; subst; eauto. Qed.

Lemma Matches_plus_inv cls (p : list Re.item) (s : string) marks rest :
  Matches (Re.Plus cls :: p) s marks rest ->
  exists c x t,
    s = String c x ++ t /\ all_chars cls (String c x) = true
    /\ Matches p t marks rest.
Proof.
  inversion 1 as [| | |cls' p' c x t ms e Hc Hx Ht|]; subst.
  exists c, x, t. cbn [all_chars]. rewrite Hc, Hx. auto.
Qed.

Lemma Matches_lit_inv c (p : list Re.item) (s : string) marks rest :
  Matches (Re.Lit c :: p) s marks rest ->
  exists t, s = String c t /\ Matches p t marks rest.
Proof. inversion 1; subst; eauto. Qed.

Lemma Matches_paren_inv (p : list Re.item) (s : string) marks rest :
  Matches (Re.Paren :: p) s marks rest ->
  exists ms, marks = s :: ms /\ Matches p s ms rest.
Proof. inversion 1; subst; eauto. Qed.

Lemma Matches_end_inv (s : string) marks rest :
  Matches [] s marks rest -> marks = [] /\ rest = s.
Proof. inversion 1; subst; auto. Qed.

(** Whatever the pattern matches is the text of a row, and the two groups
    are its identifier and its label. *)
Lemma Matches_row (indent : Z) (s : string) marks rest :
  Matches (pattern indent) s marks rest ->
  exists r : Row,
    row_shape r /\ s = row_text indent r ++ rest
    /\ Re.groups2 marks = (ident r, label r).
Proof.
  rewrite pattern_sep. intros H.
  apply Matches_lits in H as (t1 & -> & H). cbn [app] in H.
  apply Matches_star_inv in H as (A & t2 & -> & HA & H).
  apply Matches_lits in H as (t3 & -> & H). cbn [app] in H.
  apply Matches_star_inv in H as (B & t4 & -> & HB & H).
  apply Matches_lits in H as (t5 & -> & H). cbn [app] in H.
  apply Matches_paren_inv in H as (ms1 & -> & H).
  apply Matches_plus_inv in H as (c1 & W1 & t6 & -> & HW1 & H).
  apply Matches_lit_inv in H as (t7 & -> & H).
  apply Matches_plus_inv in H as (c2 & W2 & t8 & -> & HW2 & H).
  apply Matches_paren_inv in H as (ms2 & -> & H).
  apply Matches_lits in H as (t9 & -> & H). cbn [app] in H.
  apply Matches_paren_inv in H as (ms3 & -> & H).
  apply Matches_plus_inv in H as (c3 & L & t10 & -> & HL & H).
  apply Matches_paren_inv in H as (ms4 & -> & H).
  rewrite <- (List.app_nil_r (Re.lits "</td>")) in H.
  apply Matches_lits in H as (t11 & -> & H).
  apply Matches_end_inv in H as [-> ->].
  exists (mkRow A B (String c1 W1 ++ "_" ++ String c2 W2) (String c3 L)).
  split; [| split].
  - repeat split; cbn [href anchor ident label]; try assumption; try discriminate.
    exists (String c1 W1), (String c2 W2). repeat split; auto; discriminate.
  - unfold row_text. cbn [href anchor ident label].
    rewrite !append_assoc. reflexivity.
  - cbn [Re.groups2 ident label]. f_equal.
    + etransitivity;
        [| apply (between_append (String c1 W1 ++ "_" ++ String c2 W2)
                    (("</a></td>" ++ row_sep indent ++ "<td>")
                     ++ String c3 L ++ "</td>" ++ t11))].
      f_equal. rewrite !append_assoc. reflexivity.
    + apply (between_append (String c3 L) ("</td>" ++ t11)).
Qed.

(** Conversely the text of a well-shaped row is matched, with its
    identifier and label as the groups. *)
Lemma row_Matches (indent : Z) (r : Row) (rest : string) :
  row_shape r ->
  exists marks,
    Matches (pattern indent) (row_text indent r ++ rest) marks rest
    /\ Re.groups2 marks = (ident r, label r).
Proof.
  destruct r as [A B I L].
  unfold row_shape, identifier_shape, label_shape.
  cbn [href anchor ident label].
  intros (HA & HB & (g & sg & -> & Hg & Hsg & Hgw & Hsgw) & HL0 & HL).
  destruct g as [|c1 W1]; [congruence |].
  destruct sg as [|c2 W2]; [congruence |].
  destruct L as [|c3 L]; [congruence |].
  cbn [all_chars] in Hgw, Hsgw, HL.
  apply andb_true_iff in Hgw as [Hc1 HW1].
  apply andb_true_iff in Hsgw as [Hc2 HW2].
  apply andb_true_iff in HL as [Hc3 HL].
  eexists. split.
  - rewrite pattern_sep. unfold row_text. cbn [href anchor ident label].
    rewrite !lits_append, <- !List.app_assoc, !append_assoc.
    repeat apply Matches_lits_intro. cbn [app].
    apply M_star; [exact HA |].
    repeat apply Matches_lits_intro. cbn [app].
    apply M_star; [exact HB |].
    repeat apply Matches_lits_intro. cbn [app].
    apply M_paren. apply (M_plus _ _ c1 W1); [exact Hc1 | exact HW1 |].
    apply (M_lit "_"). apply (M_plus _ _ c2 W2); [exact Hc2 | exact HW2 |].
    apply M_paren.
    repeat apply Matches_lits_intro. cbn [app].
    apply M_paren. apply (M_plus _ _ c3 L); [exact Hc3 | exact HL |].
    apply M_paren.
    rewrite <- (List.app_nil_r (Re.lits "</td>")).
    apply Matches_lits_intro. apply M_end.
  - cbn [Re.groups2]. f_equal.
    + etransitivity; [| apply (between_append (String c1 W1 ++ "_" ++ String c2 W2)
                              ("</a></td>" ++ row_sep indent ++ "<td>"
                               ++ String c3 L ++ "</td>" ++ rest))].
      f_equal. rewrite !append_assoc. reflexivity.
    + apply (between_append (String c3 L) ("</td>" ++ rest)).
Qed.

Lemma exec_row (indent : Z) (s : string) marks rest :
  Re.exec (pattern indent) s = Some (marks, rest) ->
  exists r : Row,
    row_shape r /\ s = row_text indent r ++ rest
    /\ Re.groups2 marks = (ident r, label r).
Proof. intros H. now apply Matches_row, exec_sound. Qed.

Lemma row_exec (indent : Z) (r : Row) (rest : string) :
  row_shape r -> is_Some (Re.exec (pattern indent) (row_text indent r ++ rest)).
Proof.
  intros Hr. destruct (row_Matches indent r rest Hr) as (marks & H & _).
  exact (exec_complete _ _ _ _ H).
Qed.

End Matcher.

(** ** The scan *)

Section Scan.

Lemma findall_from_Forall (P : string * string -> Prop) (p : list Re.item) :
  (forall t marks rest, Re.exec p t = Some (marks, rest) -> P (Re.groups2 marks)) ->
  forall s k, Forall P (Re.findall_from p s k).
Proof.
  intros HP. induction s as [|c s IH]; intros k; cbn [Re.findall_from].
  - destruct (Re.exec p EmptyString) as [[marks rest]|] eqn:He; [| constructor].
    constructor; [eauto | constructor].
  - destruct k as [|k]; [| apply IH].
    destruct (Re.exec p (String c s)) as [[marks rest]|] eqn:He; [| apply IH].
    constructor; [eauto | apply IH].
Qed.

Lemma suffix_of_refl (s : string) : suffix_of s s.
Proof. now exists EmptyString. Qed.

Lemma suffix_of_cons (t : string) (c : ascii) (s : string) :
  suffix_of t s -> suffix_of t (String c s).
Proof. intros [x ->]. now exists (String c x). Qed.

Lemma findall_from_nil (p : list Re.item) (s : string) :
  (forall t, suffix_of t s -> Re.exec p t = None) ->
  forall k, Re.findall_from p s k = [].
Proof.
  induction s as [|c s IH]; intros Hs k; cbn [Re.findall_from].
  - now rewrite (Hs _ (suffix_of_refl _)).
  - assert (Hs' : forall t, suffix_of t s -> Re.exec p t = None)
      by (intros t Ht; apply Hs, suffix_of_cons, Ht).
    destruct k as [|k]; [| now apply IH].
    rewrite (Hs _ (suffix_of_refl _)). now apply IH.
Qed.

Lemma findall_from_skip (p : list Re.item) (x t : string) :
  Re.findall_from p (x ++ t) (String.length x) = Re.findall_from p t 0.
Proof. induction x as [|c x IH]; [reflexivity | exact IH]. Qed.

(** One step of the scan at a position where the pattern matches. *)
Lemma findall_from_match (p : list Re.item) (c : ascii) (m rest : string) marks :
  Re.exec p (String c m ++ rest) = Some (marks, rest) ->
  Re.findall_from p (String c m ++ rest) 0
  = Re.groups2 marks :: Re.findall_from p rest 0.
Proof.
  intros He. cbn [append Re.findall_from]. cbn [append] in He. rewrite He.
  f_equal. cbn [String.length]. rewrite length_append.
  replace (S (String.length m + String.length rest) - String.length rest - 1)
    with (String.length m) by lia.
  apply findall_from_skip.
Qed.

(** One step of the scan at a position where it does not. *)
Lemma findall_from_miss (p : list Re.item) (c : ascii) (s : string) :
  Re.exec p (String c s) = None ->
  Re.findall_from p (String c s) 0 = Re.findall_from p s 0.
Proof. intros He. cbn [Re.findall_from]. now rewrite He. Qed.

(** Every record the extractor returns has the shape of the two groups. *)
Lemma extract_shape (indent : Z) (contents : string) :
  Forall record_shape (extract indent contents).
Proof.
  apply findall_from_Forall. intros t marks rest He.
  destruct (exec_row _ _ _ _ He) as (r & (_ & _ & Hi & Hl) & _ & ->).
  split; assumption.
Qed.

End Scan.

(** ** Sensitivity of the pattern to the indent *)

Section Indent.

Lemma word_not_newline (c : ascii) : Re.word c = true -> not_newline c = true.
Proof. destruct c as [[] [] [] [] [] [] [] []]; vm_compute; auto. Qed.

Lemma name_pat_not_newline (c : ascii) : name_pat c = true -> not_newline c = true.
Proof. destruct c as [[] [] [] [] [] [] [] []]; vm_compute; auto. Qed.

Lemma word_not_lt (c : ascii) : Re.word c = true -> not_lt c = true.
Proof. destruct c as [[] [] [] [] [] [] [] []]; vm_compute; auto. Qed.

Lemma name_pat_not_lt (c : ascii) : name_pat c = true -> not_lt c = true.
Proof. destruct c as [[] [] [] [] [] [] [] []]; vm_compute; auto. Qed.

Lemma identifier_all_word (s : string) :
  identifier_shape s -> all_chars Re.word s = true.
Proof.
  intros (g & sg & -> & _ & _ & Hg & Hsg).
  rewrite !all_chars_append, Hg, Hsg. reflexivity.
Qed.

Lemma spaces_all (cls : ascii -> bool) (n : Z) :
  cls " "%char = true -> all_chars cls (Py.spaces n) = true.
Proof.
  intros H. unfold Py.spaces. induction (Z.to_nat n) as [|k IH]; [reflexivity |].
  cbn. now rewrite H, IH.
Qed.

(** A fragment matched at indent 0 holds no line feed. *)
Lemma row_text_0_one_line (r : Row) :
  row_shape r -> all_chars not_newline (row_text 0 r) = true.
Proof.
  intros (HA & HB & HI%identifier_all_word & _ & HL).
  unfold row_text, row_sep. cbn [Z.eqb].
  rewrite !all_chars_append.
  change (all_chars not_newline (href r)) with (all_chars Re.dot (href r)).
  change (all_chars not_newline (anchor r)) with (all_chars Re.dot (anchor r)).
  rewrite HA, HB.
  rewrite (all_chars_impl _ _ _ word_not_newline HI).
  rewrite (all_chars_impl _ _ _ name_pat_not_newline HL).
  reflexivity.
Qed.

Lemma contains_skip_char (sub : string) (a : ascii) (y : string) :
  Py.startswith sub (String a y) = false ->
  contains sub (String a y) = contains sub y.
Proof. intros H. now rewrite contains_cons, H. Qed.

Lemma contains_skip_block (c0 : ascii) (sub x y : string) :
  all_chars (fun a => negb (Ascii.eqb a c0)) x = true ->
  contains (String c0 sub) (x ++ y) = contains (String c0 sub) y.
Proof.
  induction x as [|a x IH]; [reflexivity |].
  cbn [all_chars append]. intros [Ha Hx]%andb_true_iff.
  rewrite contains_skip_char; [now apply IH |].
  cbn [Py.startswith]. rewrite Ascii.eqb_sym.
  now destruct (Ascii.eqb a c0).
Qed.

Lemma contains_suffix (sub t s : string) :
  contains sub s = false -> suffix_of t s -> Py.startswith sub t = false.
Proof.
  intros Hs [x ->]. induction x as [|a x IH].
  - destruct t; cbn [contains append] in Hs; now apply orb_false_iff in Hs.
  - apply IH. cbn [append] in Hs. rewrite contains_cons in Hs.
    now apply orb_false_iff in Hs.
Qed.

(** Where the indent-0 pattern matches, the text opens a row and its
    first cell with nothing in between. *)
Lemma exec_0_opening (t : string) :
  is_Some (Re.exec (pattern 0) t) -> Py.startswith "<tr><" t = true.
Proof.
  intros [[marks rest] He].
  destruct (exec_row _ _ _ _ He) as (r & _ & -> & _).
  reflexivity.
Qed.

(** A row laid out at a non-zero indent holds no such opening, as long
    as its attribute values hold no markup. *)
Lemma row_text_no_opening (indent : Z) (r : Row) :
  indent <> 0%Z -> row_shape r ->
  markup_free (href r) -> markup_free (anchor r) ->
  contains "<tr><" (row_text indent r) = false.
Proof.
  intros Hn (_ & _ & HI%identifier_all_word & _ & HL) HA HB.
  apply (all_chars_impl _ _ _ word_not_lt) in HI.
  apply (all_chars_impl _ _ _ name_pat_not_lt) in HL.
  assert (Hsp : all_chars not_lt (Py.spaces indent) = true)
    by now apply spaces_all.
  unfold row_text, row_sep. apply Z.eqb_neq in Hn. rewrite Hn.
  unfold Py.nl, Py.dq, Py.str1. rewrite !append_assoc. cbn [append].
  repeat first
    [ rewrite contains_skip_char by reflexivity
    | rewrite (contains_skip_block "<") by assumption ].
  reflexivity.
Qed.

Lemma append_first_char (c : ascii) (x x' y y' : string) :
  all_chars (fun a => negb (Ascii.eqb a c)) x = true ->
  all_chars (fun a => negb (Ascii.eqb a c)) x' = true ->
  x ++ String c y = x' ++ String c y' -> x = x' /\ y = y'.
Proof.
  revert x'. induction x as [|a x IH]; intros [|a' x']; cbn [all_chars append].
  - intros _ _ [= ->]. auto.
  - intros _ [Ha _]%andb_true_iff [= <- _]. now rewrite Ascii.eqb_refl in Ha.
  - intros [Ha _]%andb_true_iff _ [= -> _]. now rewrite Ascii.eqb_refl in Ha.
  - intros [_ Hx]%andb_true_iff [_ Hx']%andb_true_iff [= -> H].
    destruct (IH _ Hx Hx' H) as [-> ->]. auto.
Qed.

End Indent.

Section IndentClaim.

(** C6.  The pattern is exactly sensitive to the indent.  (1) Whatever the
    indent-0 pattern matches lies on one line.  (2) A row laid out at a
    non-zero indent (so also with two spaces and line breaks) is not
    matched by the indent-0 pattern where the row starts, whatever its
    content, and (3) the indent-0 scan finds nothing anywhere in such a
    row when its attribute values hold no markup.  (4) At a positive
    indent a match is a row in which each of the two cells comes after a
    line feed and exactly [indent] space characters, and (5) any other
    run of characters before the first cell, such as tabs or a different
    number of spaces, is not matched. *)
Theorem pattern_indent_sensitive :
  (forall s marks rest,
      Re.exec (pattern 0) s = Some (marks, rest) ->
      exists fragment,
        s = fragment ++ rest /\ all_chars not_newline fragment = true)
  /\ (forall indent r rest,
         indent <> 0%Z -> Re.exec (pattern 0) (row_text indent r ++ rest) = None)
  /\ (forall indent r,
         indent <> 0%Z -> row_shape r ->
         markup_free (href r) -> markup_free (anchor r) ->
         extract 0 (row_text indent r) = [])
  /\ (forall indent s marks rest,
         (0 < indent)%Z ->
         Re.exec (pattern indent) s = Some (marks, rest) ->
         exists r,
           row_shape r
           /\ Re.groups2 marks = (ident r, label r)
           /\ s = "<tr>" ++ Py.nl ++ Py.spaces indent
                  ++ "<td><a href=" ++ Py.dq ++ "variables/" ++ href r ++ Py.dq
                  ++ " name=" ++ Py.dq ++ anchor r ++ Py.dq ++ ">" ++ ident r
                  ++ "</a></td>" ++ Py.nl ++ Py.spaces indent
                  ++ "<td>" ++ label r ++ "</td>" ++ rest)
  /\ (forall indent gap tail,
         (0 < indent)%Z -> markup_free gap ->
         is_Some (Re.exec (pattern indent) ("<tr>" ++ Py.nl ++ gap ++ "<" ++ tail)) ->
         gap = Py.spaces indent).
Proof.
  split; [| split; [| split; [| split]]].
  - intros s marks rest He.
    destruct (exec_row _ _ _ _ He) as (r & Hr & -> & _).
    exists (row_text 0 r). split; [reflexivity | now apply row_text_0_one_line].
  - intros indent r rest Hn.
    destruct (Re.exec (pattern 0) (row_text indent r ++ rest)) as [res|] eqn:He;
      [| reflexivity].
    assert (Hs : Py.startswith "<tr><" (row_text indent r ++ rest) = true)
      by (apply exec_0_opening; rewrite He; eauto).
    unfold row_text, row_sep in Hs. apply Z.eqb_neq in Hn. rewrite Hn in Hs.
    discriminate Hs.
  - intros indent r Hn Hr HA HB. apply findall_from_nil. intros t Ht.
    destruct (Re.exec (pattern 0) t) as [res|] eqn:He; [| reflexivity].
    assert (Hs : Py.startswith "<tr><" t = true)
      by (apply exec_0_opening; rewrite He; eauto).
    rewrite (contains_suffix _ _ _ (row_text_no_opening _ _ Hn Hr HA HB) Ht) in Hs.
    discriminate Hs.
  - intros indent s marks rest Hn He.
    destruct (exec_row _ _ _ _ He) as (r & Hr & -> & Hg).
    exists r. split; [exact Hr | split; [exact Hg |]].
    unfold row_text, row_sep.
    assert (Hz : (indent =? 0)%Z = false) by (apply Z.eqb_neq; lia).
    rewrite Hz, !append_assoc. reflexivity.
  - intros indent gap tail Hn Hgap [[marks rest] He].
    destruct (exec_row _ _ _ _ He) as (r & _ & Hs & _).
    unfold row_text, row_sep in Hs.
    assert (Hz : (indent =? 0)%Z = false) by (apply Z.eqb_neq; lia).
    rewrite Hz, !append_assoc in Hs. cbn [append] in Hs.
    injection Hs as Hs.
    apply (append_first_char "<") in Hs as [Hs _].
    + exact Hs.
    + exact Hgap.
    + now apply spaces_all.
Qed.

Lemma row_a_shape : row_shape Sample.row_a.
Proof.
  repeat split; try reflexivity; try discriminate.
  exists "B01001", "001E". repeat split; discriminate.
Qed.

Lemma pattern_indent_sensitive_witness :
  (exists fragment,
      Sample.one_line = fragment ++ "</tr>"
      /\ all_chars not_newline fragment = true)
  /\ Re.exec (pattern 0) (row_text 2 Sample.row_a ++ "</tr>") = None
  /\ extract 0 (row_text 2 Sample.row_a) = []
  /\ (exists r,
         row_shape r
         /\ row_text 2 Sample.row_a ++ "</tr>"
            = "<tr>" ++ Py.nl ++ Py.spaces 2
              ++ "<td><a href=" ++ Py.dq ++ "variables/" ++ href r ++ Py.dq
              ++ " name=" ++ Py.dq ++ anchor r ++ Py.dq ++ ">" ++ ident r
              ++ "</a></td>" ++ Py.nl ++ Py.spaces 2
              ++ "<td>" ++ label r ++ "</td>" ++ "</tr>")
  /\ "  " = Py.spaces 2.
Proof.
  destruct pattern_indent_sensitive as (H1 & H2 & H3 & H4 & H5).
  split; [| split; [| split; [| split]]].
  - eapply H1. vm_compute. reflexivity.
  - apply H2. discriminate.
  - apply H3; [discriminate | exact row_a_shape | reflexivity | reflexivity].
  - edestruct (H4 2%Z (row_text 2 Sample.row_a ++ "</tr>")) as (r & Hr & _ & Hs);
      [reflexivity | vm_compute; reflexivity | exists r; auto].
  - apply (H5 2%Z "  " ("td>" ++ string_of_list_ascii
             (skipn 11 (list_ascii_of_string (row_text 2 Sample.row_a)))));
      [reflexivity | reflexivity |].
    vm_compute. eauto.
Defined.

End IndentClaim.

(** ** The CSV emitter *)

Section Csv.

Lemma split_cons (sep c : ascii) (r : string) :
  Py.split sep (String c r) =
  if Ascii.eqb c sep then EmptyString :: Py.split sep r
  else match Py.split sep r with
       | p :: ps => String c p :: ps
       | [] => [String c EmptyString]
       end.
Proof. reflexivity. Qed.

Lemma count_char_cons (sep c : ascii) (r : string) :
  count_char sep (String c r) = (if Ascii.eqb c sep then 1 else 0) + count_char sep r.
Proof. reflexivity. Qed.

Lemma split_length (sep : ascii) (s : string) :
  List.length (Py.split sep s) = count_char sep s + 1.
Proof.
  induction s as [|c r IH]; [reflexivity |].
  rewrite split_cons, count_char_cons.
  destruct (Ascii.eqb c sep); cbn [List.length]; [lia |].
  destruct (Py.split sep r) as [|p ps]; cbn [List.length] in *; lia.
Qed.

Lemma split_none (sep : ascii) (s : string) :
  count_char sep s = 0 -> Py.split sep s = [s].
Proof.
  induction s as [|c r IH]; [reflexivity |].
  rewrite split_cons, count_char_cons.
  destruct (Ascii.eqb c sep); [discriminate |].
  intros H. now rewrite IH.
Qed.

Lemma split_two (sep : ascii) (s : string) :
  count_char sep s = 1 ->
  exists g sg,
    Py.split sep s = [g; sg] /\ s = g ++ String sep sg
    /\ count_char sep g = 0 /\ count_char sep sg = 0.
Proof.
  induction s as [|c r IH]; [discriminate |].
  rewrite split_cons, count_char_cons.
  destruct (Ascii.eqb_spec c sep) as [->|Hc].
  - intros H. assert (H0 : count_char sep r = 0) by lia.
    exists EmptyString, r. rewrite (split_none _ _ H0). auto.
  - intros H. destruct (IH H) as (g & sg & -> & -> & Hg & Hsg).
    exists (String c g), sg. repeat split; try assumption.
    rewrite count_char_cons. apply Ascii.eqb_neq in Hc. now rewrite Hc.
Qed.

Lemma malformed_iff (m : string * string) :
  malformed m <-> ~ one_underscore m.
Proof. unfold malformed, one_underscore. rewrite split_length. lia. Qed.

Lemma malformed_dec (m : string * string) : {malformed m} + {one_underscore m}.
Proof.
  unfold one_underscore.
  destruct (Nat.eq_dec (count_char "_" (fst m)) 1) as [H|H]; [now right |].
  left. now apply malformed_iff.
Qed.

Lemma write_insert (path c data : string) (fs : gmap string string) :
  Fs.write path data (<[path := c]> fs) = <[path := c ++ data]> fs.
Proof. unfold Fs.write. now rewrite alter_insert_eq. Qed.

(** The rows written for records that all unpack. *)
Lemma write_csv_rows_all (ms : list (string * string)) (dest : string)
    (fs : gmap string string) :
  Forall one_underscore ms ->
  forall c,
  exists rows,
    Forall2 csv_row_of ms rows
    /\ write_csv_rows ms dest (<[dest := c]> fs)
       = (<[dest := c ++ text_of rows]> fs, Returned tt).
Proof.
  induction 1 as [|[identifier name] ms Hm _ IH]; intros c.
  - exists []. split; [constructor |]. cbn. now rewrite append_nil_r.
  - destruct (split_two _ _ Hm) as (g & sg & Hs & Hid & Hg & Hsg).
    cbn [fst] in Hs, Hid.
    destruct (IH (c ++ g ++ "," ++ sg ++ "," ++ to_name_path name ++ Py.nl))
      as (rows & Hrows & Hw).
    exists ((g ++ "," ++ sg ++ "," ++ to_name_path name ++ Py.nl) :: rows).
    split.
    + constructor; [| exact Hrows]. exists g, sg. cbn [fst snd]. auto.
    + cbn [write_csv_rows]. rewrite Hs, write_insert, Hw.
      cbn [text_of fold_right]. now rewrite !append_assoc.
Qed.

(** The loop stops at the first record that does not unpack, with the
    rows of the records before it written. *)
Lemma write_csv_rows_stop (good : list (string * string)) (bad : string * string)
    (rest : list (string * string)) (dest : string) (fs : gmap string string) :
  Forall one_underscore good -> malformed bad ->
  forall c,
  exists rows,
    Forall2 csv_row_of good rows
    /\ write_csv_rows (good ++ bad :: rest)%list dest (<[dest := c]> fs)
       = (<[dest := c ++ text_of rows]> fs, Raised ValueError).
Proof.
  intros Hgood Hbad. induction Hgood as [|[identifier name] ms Hm _ IH]; intros c.
  - exists []. split; [constructor |]. destruct bad as [bi bn].
    cbn [app write_csv_rows text_of fold_right]. rewrite append_nil_r.
    unfold malformed in Hbad. cbn [fst] in Hbad.
    destruct (Py.split "_" bi) as [|g [|sg [|x l]]]; try reflexivity.
    now contradiction Hbad.
  - destruct (split_two _ _ Hm) as (g & sg & Hs & Hid & Hg & Hsg).
    cbn [fst] in Hs, Hid.
    destruct (IH (c ++ g ++ "," ++ sg ++ "," ++ to_name_path name ++ Py.nl))
      as (rows & Hrows & Hw).
    exists ((g ++ "," ++ sg ++ "," ++ to_name_path name ++ Py.nl) :: rows).
    split.
    + constructor; [| exact Hrows]. exists g, sg. cbn [fst snd]. auto.
    + cbn [app write_csv_rows]. rewrite Hs, write_insert, Hw.
      cbn [text_of fold_right]. now rewrite !append_assoc.
Qed.

Lemma first_malformed (ms : list (string * string)) :
  Exists malformed ms ->
  exists good bad rest,
    ms = (good ++ bad :: rest)%list /\ Forall one_underscore good /\ malformed bad.
Proof.
  induction ms as [|m ms IH]; intros H; [inversion H |].
  destruct (malformed_dec m) as [Hm|Hm].
  - exists [], m, ms. auto.
  - inversion H as [? ? Hm'|? ? Hms]; subst.
    + now apply malformed_iff in Hm'.
    + destruct (IH Hms) as (good & bad & rest & -> & Hg & Hb).
      exists (m :: good), bad, rest. auto.
Qed.

Lemma all_or_malformed (ms : list (string * string)) :
  Forall one_underscore ms \/ Exists malformed ms.
Proof.
  induction ms as [|m ms [IH|IH]]; [left; constructor | |].
  - destruct (malformed_dec m); [right | left]; now constructor.
  - right. now constructor.
Qed.

Lemma write_csv_start (ms : list (string * string)) (dest : string)
    (fs : gmap string string) :
  write_csv ms dest fs
  = write_csv_rows ms dest (<[dest := csv_header ++ Py.nl]> fs).
Proof. unfold write_csv, Fs.open_w. now rewrite write_insert. Qed.

Lemma write_csv_all (ms : list (string * string)) (dest : string)
    (fs : gmap string string) :
  Forall one_underscore ms ->
  exists rows,
    Forall2 csv_row_of ms rows
    /\ write_csv ms dest fs
       = (<[dest := csv_header ++ Py.nl ++ text_of rows]> fs, Returned tt).
Proof.
  intros H. rewrite write_csv_start.
  destruct (write_csv_rows_all ms dest fs H (csv_header ++ Py.nl)) as (rows & Hr & Hw).
  exists rows. split; [exact Hr |]. now rewrite Hw, append_assoc.
Qed.

Lemma write_csv_stop (good : list (string * string)) (bad : string * string)
    (rest : list (string * string)) (dest : string) (fs : gmap string string) :
  Forall one_underscore good -> malformed bad ->
  exists rows,
    Forall2 csv_row_of good rows
    /\ write_csv (good ++ bad :: rest)%list dest fs
       = (<[dest := csv_header ++ Py.nl ++ text_of rows]> fs, Raised ValueError).
Proof.
  intros Hg Hb. rewrite write_csv_start.
  destruct (write_csv_rows_stop good bad rest dest fs Hg Hb (csv_header ++ Py.nl))
    as (rows & Hr & Hw).
  exists rows. split; [exact Hr |]. now rewrite Hw, append_assoc.
Qed.

Lemma write_csv_outcome (ms : list (string * string)) (dest : string)
    (fs : gmap string string) :
  snd (write_csv ms dest fs) = Raised ValueError <-> Exists malformed ms.
Proof.
  split.
  - intros H. destruct (all_or_malformed ms) as [Hall|Hex]; [| exact Hex].
    destruct (write_csv_all ms dest fs Hall) as (rows & _ & Hw).
    rewrite Hw in H. discriminate H.
  - intros (good & bad & rest & -> & Hg & Hb)%first_malformed.
    destruct (write_csv_stop good bad rest dest fs Hg Hb) as (rows & _ & Hw).
    now rewrite Hw.
Qed.

End Csv.

Section CsvClaims.

(** C3.  When every identifier holds exactly one underscore, [write_csv]
    leaves at the destination the header line [group,variable,path]
    followed by one line per record, in order; each line is
    [group,sub_group,path] and a line feed, unquoted, where [group],
    an underscore and [sub_group] give back the matched identifier and
    [path] is the normalised label. *)
Theorem write_csv_round_trip (matches : list (string * string))
    (csv_filename : string) (fs : gmap string string) :
  Forall one_underscore matches ->
  exists rows,
    Forall2 csv_row_of matches rows
    /\ write_csv matches csv_filename fs
       = (<[csv_filename := "group,variable,path" ++ Py.nl ++ text_of rows]> fs,
          Returned tt).
Proof. apply write_csv_all. Qed.

Lemma write_csv_round_trip_witness :
  exists rows,
    Forall2 csv_row_of Sample.records rows
    /\ write_csv Sample.records "out.csv" ∅
       = (<["out.csv" := "group,variable,path" ++ Py.nl ++ text_of rows]> ∅,
          Returned tt).
Proof.
  apply (write_csv_round_trip Sample.records "out.csv" ∅).
  repeat constructor.
Defined.

Lemma shape_has_underscore (m : string * string) :
  record_shape m -> 1 <= count_char "_" (fst m).
Proof.
  intros [(g & sg & -> & _) _]. rewrite !count_char_append.
  cbn [count_char]. rewrite Ascii.eqb_refl. lia.
Qed.

Lemma Exists_iff_on {A : Type} (P Q R : A -> Prop) (l : list A) :
  Forall P l -> (forall x, P x -> (Q x <-> R x)) -> (Exists Q l <-> Exists R l).
Proof.
  intros Hl HQR. induction Hl as [|x l Hx _ IH].
  - split; inversion 1.
  - split; inversion 1; subst;
      solve [ apply Exists_cons_hd; now apply (HQR x Hx)
            | apply Exists_cons_tl; now apply IH ].
Qed.

(** C8.  [write_csv] raises, aborting its write, exactly when some
    identifier does not unpack into two parts; for the identifiers the
    extractor returns that is exactly when one of them holds more than one
    underscore, which the identifier pattern lets through; and when every
    identifier holds exactly one underscore, nothing is raised. *)
Theorem write_csv_raises_iff :
  (forall matches csv_filename fs,
      snd (write_csv matches csv_filename fs) = Raised ValueError
      <-> Exists malformed matches)
  /\ (forall indent contents csv_filename fs,
         snd (write_csv (extract indent contents) csv_filename fs) = Raised ValueError
         <-> Exists (fun m => 1 < count_char "_" (fst m)) (extract indent contents))
  /\ (exists indent contents,
         Exists (fun m => 1 < count_char "_" (fst m)) (extract indent contents))
  /\ (forall matches csv_filename fs,
         Forall one_underscore matches ->
         snd (write_csv matches csv_filename fs) = Returned tt).
Proof.
  split; [| split; [| split]].
  - apply write_csv_outcome.
  - intros indent contents dest fs. rewrite write_csv_outcome.
    apply (Exists_iff_on record_shape); [apply extract_shape |].
    intros m Hm%shape_has_underscore. rewrite malformed_iff.
    unfold one_underscore. lia.
  - exists 2%Z, Sample.indented3.
    assert (He : extract 2 Sample.indented3 = Sample.records3)
      by (vm_compute; reflexivity).
    rewrite He. do 2 apply Exists_cons_tl. apply Exists_cons_hd.
    vm_compute. lia.
  - intros ms dest fs H.
    destruct (write_csv_all ms dest fs H) as (rows & _ & Hw). now rewrite Hw.
Qed.

Lemma write_csv_raises_iff_witness :
  snd (write_csv Sample.records "out.csv" ∅) = Returned tt.
Proof.
  apply (proj2 (proj2 (proj2 write_csv_raises_iff))).
  repeat constructor.
Defined.

(** C9, as the code has it.  When [write_csv] aborts on an identifier
    that does not unpack, the destination is left holding the header and
    the rows of the records before that one: a partial file remains. *)
Theorem write_csv_abort_leaves_rows (good : list (string * string))
    (bad : string * string) (rest : list (string * string))
    (csv_filename : string) (fs : gmap string string) :
  Forall one_underscore good -> malformed bad ->
  exists rows,
    Forall2 csv_row_of good rows
    /\ write_csv (good ++ bad :: rest)%list csv_filename fs
       = (<[csv_filename := "group,variable,path" ++ Py.nl ++ text_of rows]> fs,
          Raised ValueError).
Proof. apply write_csv_stop. Qed.

Lemma write_csv_abort_leaves_rows_witness :
  exists rows,
    Forall2 csv_row_of Sample.records rows
    /\ write_csv Sample.records3 "out.csv" ∅
       = (<["out.csv" := "group,variable,path" ++ Py.nl ++ text_of rows]> ∅,
          Raised ValueError).
Proof.
  apply (write_csv_abort_leaves_rows Sample.records
           ("B01003_001_A", "Estimate!!Total") [] "out.csv" ∅).
  - repeat constructor.
  - vm_compute. lia.
Defined.

(** C9 as stated fails: after the abort on the third sample record the
    destination is the truncated file, header and the two rows before. *)
Lemma write_csv_abort_partial_file :
  snd (write_csv Sample.records3 "out.csv" (Sample.disk Sample.indented3))
  = Raised ValueError
  /\ fst (write_csv Sample.records3 "out.csv" (Sample.disk Sample.indented3))
       !! "out.csv"
     = Some ("group,variable,path" ++ Py.nl
             ++ "B01001,001E,estimate.total" ++ Py.nl
             ++ "B01002,001E,estimate.median_age" ++ Py.nl).
Proof. split; vm_compute; reflexivity. Qed.

End CsvClaims.

(** ** The code emitter *)

Section Rust.

Lemma codegen_text (matches : list (string * string)) :
  codegen matches = Some (rust_text matches).
Proof. reflexivity. Qed.

Lemma split_append (sep : ascii) (x y : string) :
  Py.split sep (x ++ String sep y) = (Py.split sep x ++ Py.split sep y)%list.
Proof.
  induction x as [|c x IH]; cbn [append].
  - rewrite split_cons, Ascii.eqb_refl. reflexivity.
  - rewrite !split_cons, IH. destruct (Ascii.eqb c sep); [reflexivity |].
    pose proof (split_length sep x) as Hl.
    destruct (Py.split sep x) as [|p0 ps0]; [cbn in Hl; lia | reflexivity].
Qed.

Lemma lines_append (x y : string) :
  lines (x ++ Py.nl ++ y) = (lines x ++ lines y)%list.
Proof. apply split_append. Qed.

Lemma lines_one (x : string) : all_chars not_newline x = true -> lines x = [x].
Proof.
  intros H. apply split_none.
  now apply (count_char_all _ not_newline).
Qed.

Lemma lines_comma_joined (ds : list string) :
  Forall (fun d => all_chars not_newline d = true) ds ->
  lines (Py.join ("," ++ Py.nl) ds) = comma_lines ds.
Proof.
  induction 1 as [|d ds Hd Hds IH]; [reflexivity |].
  destruct ds as [|d' ds]; [now apply lines_one |].
  change (Py.join ("," ++ Py.nl) (d :: d' :: ds))
    with (d ++ ("," ++ Py.nl) ++ Py.join ("," ++ Py.nl) (d' :: ds)).
  replace (d ++ ("," ++ Py.nl) ++ Py.join ("," ++ Py.nl) (d' :: ds))
    with ((d ++ ",") ++ Py.nl ++ Py.join ("," ++ Py.nl) (d' :: ds))
    by now rewrite !append_assoc.
  rewrite lines_append, IH, lines_one; [reflexivity |].
  rewrite all_chars_append, Hd. reflexivity.
Qed.

(** Reading blocks of lines. *)
Lemma block_body_app (closing : string) (xs rest : list string) :
  forallb (fun l => negb (String.eqb l closing)) xs = true ->
  block_body closing (xs ++ closing :: rest) = xs.
Proof.
  induction xs as [|x xs IH]; cbn [forallb app block_body].
  - now rewrite String.eqb_refl.
  - intros [Hx Hxs]%andb_true_iff. apply negb_true_iff in Hx.
    now rewrite Hx, IH.
Qed.

Lemma after_skip (opening : string) (xs ys : list string) :
  forallb (fun l => negb (String.eqb l opening)) xs = true ->
  after opening (xs ++ ys) = after opening ys.
Proof.
  induction xs as [|x xs IH]; cbn [forallb app after]; [reflexivity |].
  intros [Hx Hxs]%andb_true_iff. apply negb_true_iff in Hx.
  now rewrite Hx, IH.
Qed.

Lemma comma_lines_forallb (P : string -> bool) (ds : list string) :
  P EmptyString = true ->
  Forall (fun d => P d = true /\ P (d ++ ",") = true) ds ->
  forallb P (comma_lines ds) = true.
Proof.
  intros H0. induction 1 as [|d ds [Hd Hd'] _ IH]; [cbn; now rewrite H0 |].
  destruct ds as [|d' ds]; [cbn; now rewrite Hd |].
  cbn [comma_lines forallb] in *. now rewrite Hd', IH.
Qed.

Lemma strip_comma_last (x : string) (c : ascii) :
  strip_comma (x ++ String c EmptyString)
  = x ++ (if Ascii.eqb c "," then EmptyString else String c EmptyString).
Proof.
  induction x as [|a x IH]; [reflexivity |].
  cbn [append]. rewrite <- IH.
  destruct x; reflexivity.
Qed.

Lemma entries_comma_lines (ds : list string) :
  Forall (fun d => exists x c, d = x ++ String c EmptyString
                               /\ Ascii.eqb c "," = false) ds ->
  entries (comma_lines ds) = ds.
Proof.
  induction 1 as [|d ds (x & c & -> & Hc) _ IH]; [reflexivity |].
  assert (Hd : strip_comma (x ++ String c EmptyString) = x ++ String c EmptyString)
    by now rewrite strip_comma_last, Hc.
  assert (Hne : String.eqb (x ++ String c EmptyString) EmptyString = false)
    by now destruct x.
  unfold entries in *. destruct ds as [|d' ds].
  - cbn [comma_lines map List.filter]. now rewrite Hd, Hne.
  - cbn [comma_lines map List.filter] in *.
    rewrite (strip_comma_last (x ++ String c EmptyString) ","), Ascii.eqb_refl.
    rewrite append_nil_r, Hne. cbn [negb]. now rewrite IH.
Qed.

Lemma lower_char_not_newline (c : ascii) :
  not_newline c = true -> not_newline (Py.lower_char c) = true.
Proof. destruct c as [[] [] [] [] [] [] [] []]; vm_compute; auto. Qed.

Lemma lower_one_line (s : string) :
  all_chars not_newline s = true -> all_chars not_newline (Py.lower s) = true.
Proof.
  induction s as [|c s IH]; [reflexivity |]. cbn [all_chars Py.lower].
  intros [Hc Hs]%andb_true_iff. now rewrite (lower_char_not_newline _ Hc), IH.
Qed.

Lemma bangs_to_dots_one_line (s : string) :
  (all_chars not_newline s = true ->
   all_chars not_newline (bangs_to_dots s) = true)
  /\ (forall c, all_chars not_newline (String c s) = true ->
                all_chars not_newline (bangs_to_dots (String c s)) = true).
Proof.
  induction s as [|a s [IH1 IH2]]; [split; [| intros c]; trivial |].
  split; [apply IH2 |]. intros c H. rewrite bangs_to_dots_2.
  cbn [all_chars] in H. apply andb_true_iff in H as [Hc H].
  destruct (Ascii.eqb c "!" && Ascii.eqb a "!").
  - cbn [all_chars] in *. apply andb_true_iff in H as [_ H].
    now rewrite IH1.
  - cbn [all_chars]. now rewrite Hc, IH2.
Qed.

Lemma drop_colons_one_line (s : string) :
  all_chars not_newline s = true ->
  all_chars not_newline (drop_colons s) = true.
Proof.
  induction s as [|c s IH]; [reflexivity |]. cbn [all_chars drop_colons].
  intros [Hc Hs]%andb_true_iff.
  destruct (Ascii.eqb c ":"); [now apply IH |].
  cbn [all_chars]. now rewrite Hc, IH.
Qed.

Lemma spaces_to_underscores_one_line (s : string) :
  all_chars not_newline s = true ->
  all_chars not_newline (spaces_to_underscores s) = true.
Proof.
  induction s as [|c s IH]; [reflexivity |].
  cbn [all_chars spaces_to_underscores].
  intros [Hc Hs]%andb_true_iff. rewrite (IH Hs).
  destruct (Ascii.eqb c " "); [reflexivity | now rewrite Hc].
Qed.

Lemma to_name_path_one_line (name : string) :
  all_chars not_newline name = true ->
  all_chars not_newline (to_name_path name) = true.
Proof.
  intros H. rewrite to_name_path_spec. unfold spec_normalize.
  now apply spaces_to_underscores_one_line, drop_colons_one_line,
    bangs_to_dots_one_line, lower_one_line.
Qed.

Lemma record_one_line (m : string * string) :
  record_shape m ->
  all_chars not_newline (fst m) = true /\ all_chars not_newline (snd m) = true.
Proof.
  intros [Hi%identifier_all_word [_ Hl]]. split.
  - exact (all_chars_impl _ _ _ word_not_newline Hi).
  - exact (all_chars_impl _ _ _ name_pat_not_newline Hl).
Qed.

(** The lines of the generated text. *)
Lemma rust_lines (matches : list (string * string)) :
  Forall record_shape matches ->
  lines (rust_text matches)
  = (head_lines
     ++ comma_lines (map variant_line matches)
     ++ mid1_lines
     ++ comma_lines (map label_arm matches)
     ++ mid2_lines
     ++ comma_lines (map path_arm matches)
     ++ tail_lines)%list.
Proof.
  intros H. unfold rust_text, enums, tostr, topath.
  rewrite !lines_append, !lines_comma_joined; [reflexivity | | |].
  all: apply Forall_map; eapply Forall_impl; [exact H |].
  all: intros m [Hi Hl]%record_one_line.
  - unfold path_arm, to_path_gen. rewrite !all_chars_append, Hi.
    now rewrite (to_name_path_one_line _ Hl).
  - unfold label_arm, to_string_gen. now rewrite !all_chars_append, Hi, Hl.
  - unfold variant_line. now rewrite all_chars_append, Hi.
Qed.

Lemma string_last (s : string) :
  s <> EmptyString -> exists x c, s = x ++ String c EmptyString.
Proof.
  induction s as [|a s IH]; [congruence |]. intros _.
  destruct s as [|b s].
  - now exists EmptyString, a.
  - destruct IH as (x & c & ->); [discriminate |].
    now exists (String a x), c.
Qed.

Lemma word_not_comma (c : ascii) : Re.word c = true -> Ascii.eqb c "," = false.
Proof. destruct c as [[] [] [] [] [] [] [] []]; vm_compute; auto; discriminate. Qed.

Lemma variant_line_last (m : string * string) :
  record_shape m ->
  exists x c, variant_line m = x ++ String c EmptyString /\ Ascii.eqb c "," = false.
Proof.
  intros [(g & sg & Hid & _ & Hsg & _ & Hw) _].
  destruct (string_last sg Hsg) as (x & c & ->).
  exists ("    " ++ g ++ "_" ++ x), c. split.
  - unfold variant_line. rewrite Hid, !append_assoc. reflexivity.
  - rewrite all_chars_append in Hw. apply andb_true_iff in Hw as [_ Hc].
    cbn [all_chars] in Hc. rewrite andb_true_r in Hc. now apply word_not_comma.
Qed.

Lemma label_arm_last (m : string * string) :
  exists x c, label_arm m = x ++ String c EmptyString /\ Ascii.eqb c "," = false.
Proof.
  exists ("                C::" ++ fst m ++ " => String::from(" ++ Py.dq ++ snd m ++ Py.dq),
    ")"%char.
  split; [| reflexivity].
  unfold label_arm, to_string_gen. now rewrite !append_assoc.
Qed.

Lemma path_arm_last (m : string * string) :
  exists x c, path_arm m = x ++ String c EmptyString /\ Ascii.eqb c "," = false.
Proof.
  exists ("                C::" ++ fst m ++ " => Ok(String::from(" ++ Py.dq
          ++ to_name_path (snd m) ++ Py.dq ++ ")"), ")"%char.
  split; [| reflexivity].
  unfold path_arm, to_path_gen. now rewrite !append_assoc.
Qed.

Lemma block_head (X : list string) :
  block "pub enum ClassName {" "}" (head_lines ++ X) = block_body "}" X.
Proof. reflexivity. Qed.

Lemma label_block (Y : list string) :
  block "        match self {" "        }"
    (after "impl ToString for ClassName {" (mid1_lines ++ Y))
  = block_body "        }" Y.
Proof. reflexivity. Qed.

Lemma path_block (Y : list string) :
  block "        match self {" "        }"
    (after "impl ClassName {" (mid2_lines ++ Y))
  = block_body "        }" Y.
Proof. reflexivity. Qed.

(** No generated line is one of the fixed lines the reading looks for. *)
Lemma variant_lines_differ (closing : string) (matches : list (string * string)) :
  Py.startswith " " closing = false ->
  closing <> EmptyString ->
  forallb (fun l => negb (String.eqb l closing))
    (comma_lines (map variant_line matches)) = true.
Proof.
  intros Hc H0. destruct closing as [|c closing]; [congruence |].
  cbn [Py.startswith] in Hc.
  assert (Hne : Ascii.eqb " " c = false) by now destruct (Ascii.eqb " " c).
  apply comma_lines_forallb; [reflexivity |].
  apply Forall_map, Forall_forall. intros m _.
  unfold variant_line. cbn [append String.eqb]. now rewrite Hne.
Qed.

Lemma arms_differ (closing : string) (f : string * string -> string)
    (matches : list (string * string)) :
  (forall m, exists t, f m = "         " ++ t) ->
  Py.startswith "         " closing = false ->
  closing <> EmptyString ->
  forallb (fun l => negb (String.eqb l closing)) (comma_lines (map f matches)) = true.
Proof.
  intros Hf Hc H0.
  assert (H : forall t, String.eqb ("         " ++ t) closing = false).
  { intros t. destruct (String.eqb_spec ("         " ++ t) closing) as [<-|]; [| reflexivity].
    assert (Ht : Py.startswith "         " ("         " ++ t) = true) by reflexivity.
    congruence. }
  assert (H' : forall t u, String.eqb (("         " ++ t) ++ u) closing = false).
  { intros t u. rewrite append_assoc. apply H. }
  apply comma_lines_forallb.
  - destruct closing; [congruence | reflexivity].
  - apply Forall_map, Forall_forall. intros m _.
    destruct (Hf m) as [t ->]. now rewrite H, H'.
Qed.

Lemma label_arm_indent (m : string * string) : exists t, label_arm m = "         " ++ t.
Proof. eexists. unfold label_arm, to_string_gen. cbn [append]. reflexivity. Qed.

Lemma path_arm_indent (m : string * string) : exists t, path_arm m = "         " ++ t.
Proof. eexists. unfold path_arm, to_path_gen. cbn [append]. reflexivity. Qed.

Lemma mid1_closing (Y : list string) :
  (mid1_lines ++ Y)%list = "}" :: (tl mid1_lines ++ Y)%list.
Proof. reflexivity. Qed.

Lemma mid2_closing (Y : list string) :
  (mid2_lines ++ Y)%list = "        }" :: (tl mid2_lines ++ Y)%list.
Proof. reflexivity. Qed.

Lemma tail_closing : tail_lines = "        }" :: tl tail_lines.
Proof. reflexivity. Qed.

Lemma variant_decls_text (matches : list (string * string)) :
  Forall record_shape matches ->
  variant_decls (rust_text matches) = map variant_line matches.
Proof.
  intros H. unfold variant_decls.
  rewrite (rust_lines _ H), block_head, mid1_closing.
  rewrite block_body_app
    by (apply variant_lines_differ; [reflexivity | discriminate]).
  apply entries_comma_lines, Forall_map.
  eapply Forall_impl; [exact H |]. apply variant_line_last.
Qed.

Lemma label_arms_text (matches : list (string * string)) :
  Forall record_shape matches ->
  label_arms (rust_text matches) = map label_arm matches.
Proof.
  intros H. unfold label_arms. rewrite (rust_lines _ H).
  rewrite (after_skip _ head_lines) by reflexivity.
  rewrite after_skip by (apply variant_lines_differ; [reflexivity | discriminate]).
  rewrite label_block, mid2_closing.
  rewrite block_body_app
    by (apply arms_differ; [apply label_arm_indent | reflexivity | discriminate]).
  apply entries_comma_lines, Forall_map, Forall_forall.
  intros m _. apply label_arm_last.
Qed.

Lemma path_arms_text (matches : list (string * string)) :
  Forall record_shape matches ->
  path_arms (rust_text matches) = map path_arm matches.
Proof.
  intros H. unfold path_arms. rewrite (rust_lines _ H).
  rewrite (after_skip _ head_lines) by reflexivity.
  rewrite after_skip by (apply variant_lines_differ; [reflexivity | discriminate]).
  rewrite (after_skip _ mid1_lines) by reflexivity.
  rewrite after_skip
    by (apply arms_differ; [apply label_arm_indent | reflexivity | discriminate]).
  rewrite path_block, tail_closing.
  rewrite block_body_app
    by (apply arms_differ; [apply path_arm_indent | reflexivity | discriminate]).
  apply entries_comma_lines, Forall_map, Forall_forall.
  intros m _. apply path_arm_last.
Qed.

Lemma substring_all (s : string) : substring 0 (String.length s) s = s.
Proof. induction s as [|c s IH]; [reflexivity |]. cbn. now rewrite IH. Qed.

Lemma variant_line_name (m : string * string) :
  substring 4 (String.length (variant_line m) - 4) (variant_line m) = fst m.
Proof. unfold variant_line. cbn. rewrite Nat.sub_0_r. apply substring_all. Qed.

Lemma first_seen_nodup (l seen : list string) :
  List.NoDup l -> (forall x, In x l -> ~ In x seen) -> first_seen seen l = l.
Proof.
  intros Hl. revert seen. induction Hl as [|x l Hx _ IH]; intros seen Hs; [reflexivity |].
  cbn [first_seen].
  destruct (existsb (String.eqb x) seen) eqn:He.
  - apply existsb_exists in He as (y & Hy & ->%String.eqb_eq).
    destruct (Hs y (or_introl eq_refl) Hy).
  - f_equal. apply IH. intros y Hy [<-|Hy']; [contradiction |].
    exact (Hs y (or_intror Hy) Hy').
Qed.

Lemma write_rust_text (matches : list (string * string)) (rust_filename : string)
    (fs : gmap string string) :
  write_rust matches rust_filename fs
  = (<[rust_filename := rust_text matches]> fs, Returned tt).
Proof.
  unfold write_rust. rewrite codegen_text. unfold Fs.open_w.
  now rewrite write_insert.
Qed.

End Rust.

Section RustClaims.

(** C4.  For records of the shape the extractor returns whose GROUP
    tokens are pairwise distinct, the text [write_rust] writes declares
    one variant per record, in document order, each named by the whole
    identifier of its record; the GROUP tokens of the declared variants
    are the distinct groups in first-seen order; and [to_string] and
    [to_path] have one arm per variant, in the same order, the first
    giving the record's label as a string literal and the second the
    normalised label. *)
Theorem write_rust_variants_and_arms (matches : list (string * string))
    (rust_filename : string) (fs : gmap string string) :
  Forall record_shape matches ->
  List.NoDup (map (fun m => group_token (fst m)) matches) ->
  exists code,
    write_rust matches rust_filename fs
    = (<[rust_filename := code]> fs, Returned tt)
    /\ variant_decls code = map (fun m => "    " ++ fst m) matches
    /\ variant_groups code
       = first_seen [] (map (fun m => group_token (fst m)) matches)
    /\ label_arms code
       = map (fun m => "                C::" ++ fst m ++ " => String::from("
                       ++ Py.dq ++ snd m ++ Py.dq ++ ")") matches
    /\ path_arms code
       = map (fun m => "                C::" ++ fst m ++ " => Ok(String::from("
                       ++ Py.dq ++ to_name_path (snd m) ++ Py.dq ++ "))") matches.
Proof.
  intros Hshape Hdup. exists (rust_text matches).
  split; [apply write_rust_text |].
  split; [now apply variant_decls_text |].
  split; [| split; [now apply label_arms_text | now apply path_arms_text]].
  unfold variant_groups. rewrite (variant_decls_text _ Hshape), map_map.
  rewrite first_seen_nodup; [| exact Hdup | intros x _ []].
  apply map_ext. intros m. now rewrite variant_line_name.
Qed.

Lemma sample_records_shape : Forall record_shape Sample.records.
Proof.
  repeat constructor; try discriminate; try reflexivity.
  - exists "B01001", "001E". repeat split; discriminate.
  - exists "B01002", "001E". repeat split; discriminate.
Qed.

Lemma write_rust_variants_and_arms_witness :
  exists code,
    write_rust Sample.records "out.rs" ∅ = (<["out.rs" := code]> ∅, Returned tt)
    /\ variant_decls code = ["    B01001_001E"; "    B01002_001E"]
    /\ variant_groups code = ["B01001"; "B01002"].
Proof.
  destruct (write_rust_variants_and_arms Sample.records "out.rs" ∅)
    as (code & Hw & Hv & Hg & _).
  - exact sample_records_shape.
  - repeat constructor; cbn; intuition discriminate.
  - exists code. auto.
Defined.

(** C5, on the sample records: the text [write_rust] writes.  The
    signature of [to_path] promises a [String], and each of its arms is
    an [Ok(...)], a [Result]. *)
Theorem write_rust_sample_code :
  exists code,
    write_rust Sample.records "out.rs" ∅ = (<["out.rs" := code]> ∅, Returned tt)
    /\ lines code =
       [ "use serde::{Deserialize, Serialize};"
       ; EmptyString
       ; "#[derive(Serialize, Deserialize)]"
       ; "#[serde(rename_all = " ++ Py.dq ++ "SCREAMING_SNAKE_CASE" ++ Py.dq ++ ")]"
       ; "pub enum ClassName {"
       ; "    B01001_001E,"
       ; "    B01002_001E"
       ; "}"
       ; EmptyString
       ; "impl ToString for ClassName {"
       ; "    fn to_string(&self) -> String {"
       ; "        use ClassName as C;"
       ; "        match self {"
       ; "                C::B01001_001E => String::from(" ++ Py.dq ++ "Estimate!!Total:" ++ Py.dq ++ "),"
       ; "                C::B01002_001E => String::from(" ++ Py.dq ++ "Estimate!!Median age" ++ Py.dq ++ ")"
       ; "        }"
       ; "    }"
       ; "}"
       ; EmptyString
       ; "impl ClassName {"
       ; "    "
       ; "    fn to_path(&self) -> String {"
       ; "        use ClassName as C;"
       ; "        match self {"
       ; "                C::B01001_001E => Ok(String::from(" ++ Py.dq ++ "estimate.total" ++ Py.dq ++ ")),"
       ; "                C::B01002_001E => Ok(String::from(" ++ Py.dq ++ "estimate.median_age" ++ Py.dq ++ "))"
       ; "        }"
       ; "    }"
       ; "}"
       ; "    " ].
Proof.
  exists (rust_text Sample.records). split; [apply write_rust_text |].
  vm_compute. reflexivity.
Qed.

End RustClaims.

(** ** The driver *)

Section Driver.

Lemma run_no_matches (args : Args) (w : World) (contents : string) :
  files w !! filename args = Some contents ->
  extract (indent args) contents = [] ->
  run args w
  = (mkWorld (files w) (stdout w ++ [Printed no_matches_message; UsagePrinted]),
     Returned 1%Z).
Proof. intros Hf He. unfold run. now rewrite Hf, He. Qed.

(** What [run] does once the scan has found records. *)
Lemma run_matches (args : Args) (w : World) (contents : string) :
  files w !! filename args = Some contents ->
  extract (indent args) contents <> [] ->
  run args w =
  let matches := extract (indent args) contents in
  let '(fs1, r1) :=
    match wants (csv args) args (files w) with
    | Some path => write_csv matches path (files w)
    | None => (files w, Returned tt)
    end in
  match r1 with
  | Raised e => (mkWorld fs1 (stdout w), Raised e)
  | Returned _ =>
      let '(fs2, r2) :=
        match wants (rs args) args fs1 with
        | Some path => write_rust matches path fs1
        | None => (fs1, Returned tt)
        end in
      match r2 with
      | Raised e => (mkWorld fs2 (stdout w), Raised e)
      | Returned _ => (mkWorld fs2 (stdout w), Returned 0%Z)
      end
  end.
Proof.
  intros Hf He. unfold run. rewrite Hf.
  destruct (extract (indent args) contents); [congruence | reflexivity].
Qed.

Lemma wants_cases (target : option string) (args : Args) (fs : gmap string string)
    (path : string) :
  wants target args fs = Some path ->
  target = Some path /\ (fs !! path = None \/ overwrite args = true).
Proof.
  unfold wants, Fs.path_exists. destruct target as [p|]; [| discriminate].
  destruct (bool_decide_reflect (is_Some (fs !! p))) as [Hp|Hp]; cbn [negb orb].
  - destruct (overwrite args); [| discriminate]. intros [= ->]. auto.
  - intros [= ->]. split; [reflexivity | left].
    destruct (fs !! path); [exfalso; eauto | reflexivity].
Qed.

Lemma wants_overwrite (target : option string) (args : Args) (fs : gmap string string) :
  overwrite args = true -> wants target args fs = target.
Proof.
  intros H. unfold wants. destruct target; [| reflexivity].
  now rewrite H, orb_true_r.
Qed.

(** The CSV step of [run] when it does not abort. *)
Lemma csv_step (args : Args) (fs : gmap string string) (ms : list (string * string)) :
  wants (csv args) args fs = None \/ Forall one_underscore ms ->
  exists fs1,
    match wants (csv args) args fs with
    | Some path => write_csv ms path fs
    | None => (fs, Returned tt)
    end = (fs1, Returned tt)
    /\ (wants (csv args) args fs = None -> fs1 = fs)
    /\ (forall path, wants (csv args) args fs = Some path ->
          exists rows,
            Forall2 csv_row_of ms rows
            /\ fs1 = <[path := "group,variable,path" ++ Py.nl ++ text_of rows]> fs).
Proof.
  intros H. destruct (wants (csv args) args fs) as [path|] eqn:Hw.
  - destruct H as [H|H]; [discriminate |].
    destruct (write_csv_all ms path fs H) as (rows & Hr & ->).
    eexists. split; [reflexivity |]. split; [discriminate |].
    intros p [= <-]. eauto.
  - exists fs. split; [reflexivity |]. split; [reflexivity | discriminate].
Qed.

End Driver.

Section DriverClaims.

(** C10, as the code has it.  Take a run that reads its source, extracts
    at least one record, and whose CSV step, if it writes, meets only
    identifiers with exactly one underscore.  For a requested destination
    that already exists: the run returns 0; without the overwrite flag
    the destination keeps its content; with the flag the code destination
    holds exactly the generated code, and the CSV destination (when it is
    not also the code destination) holds exactly the header and the rows. *)
Theorem run_overwrite_policy (args : Args) (w : World) (contents dest : string) :
  files w !! filename args = Some contents ->
  extract (indent args) contents <> [] ->
  (wants (csv args) args (files w) = None
   \/ Forall one_underscore (extract (indent args) contents)) ->
  (csv args = Some dest \/ rs args = Some dest) ->
  is_Some (files w !! dest) ->
  snd (run args w) = Returned 0%Z
  /\ (overwrite args = false ->
      files (fst (run args w)) !! dest = files w !! dest)
  /\ (overwrite args = true -> rs args = Some dest ->
      files (fst (run args w)) !! dest = codegen (extract (indent args) contents))
  /\ (overwrite args = true -> csv args = Some dest -> rs args <> Some dest ->
      exists rows,
        Forall2 csv_row_of (extract (indent args) contents) rows
        /\ files (fst (run args w)) !! dest
           = Some ("group,variable,path" ++ Py.nl ++ text_of rows)).
Proof.
  intros Hf Hne Hcsv Hreq [old Hold].
  rewrite (run_matches _ _ _ Hf Hne). cbv zeta.
  set (ms := extract (indent args) contents) in *.
  destruct (csv_step args (files w) ms Hcsv) as (fs1 & -> & Hnone & Hsome).
  assert (Hkeep1 : overwrite args = false -> fs1 !! dest = files w !! dest).
  { intros Hov. destruct (wants (csv args) args (files w)) as [pc|] eqn:Hwc.
    - destruct (Hsome pc eq_refl) as (rows & _ & ->).
      apply wants_cases in Hwc as [_ [Hpc|Hpc]]; [| congruence].
      apply lookup_insert_ne. congruence.
    - now rewrite (Hnone eq_refl). }
  destruct (wants (rs args) args fs1) as [pr|] eqn:Hwr.
  - rewrite write_rust_text. cbn [fst snd files].
    split; [reflexivity |]. split; [| split].
    + intros Hov. rewrite <- (Hkeep1 Hov).
      apply wants_cases in Hwr as [_ [Hpr|Hpr]]; [| congruence].
      apply lookup_insert_ne. intros ->.
      rewrite (Hkeep1 Hov), Hold in Hpr. discriminate Hpr.
    + intros Hov Hrs. rewrite (wants_overwrite _ _ _ Hov), Hrs in Hwr.
      injection Hwr as <-. now rewrite lookup_insert_eq, codegen_text.
    + intros Hov Hc Hrs. rewrite (wants_overwrite _ _ _ Hov) in Hwr.
      destruct (Hsome dest) as (rows & Hrows & ->);
        [now rewrite (wants_overwrite _ _ _ Hov) |].
      exists rows. split; [exact Hrows |].
      rewrite lookup_insert_ne by congruence. apply lookup_insert_eq.
  - cbn [fst snd files].
    split; [reflexivity |]. split; [exact Hkeep1 | split].
    + intros Hov Hrs. rewrite (wants_overwrite _ _ _ Hov), Hrs in Hwr.
      discriminate Hwr.
    + intros Hov Hc _.
      destruct (Hsome dest) as (rows & Hrows & ->);
        [now rewrite (wants_overwrite _ _ _ Hov) |].
      exists rows. split; [exact Hrows | apply lookup_insert_eq].
Qed.

Lemma sample_extract : extract 2 Sample.indented = Sample.records.
Proof. vm_compute. reflexivity. Qed.

Lemma run_overwrite_policy_witness :
  let w := mkWorld (Sample.disk Sample.indented) [] in
  snd (run (Sample.args true) w) = Returned 0%Z
  /\ snd (run (Sample.args false) w) = Returned 0%Z
  /\ files (fst (run (Sample.args false) w)) !! "out.csv" = Some "old table"
  /\ files (fst (run (Sample.args true) w)) !! "out.rs" = codegen Sample.records.
Proof.
  cbv zeta.
  assert (Hf : forall o, files (mkWorld (Sample.disk Sample.indented) [])
                 !! filename (Sample.args o) = Some Sample.indented)
    by (intros o; vm_compute; reflexivity).
  assert (Hne : forall o, extract (indent (Sample.args o)) Sample.indented <> [])
    by (intros o; cbn [indent Sample.args]; rewrite sample_extract; discriminate).
  assert (Hok : forall o,
             wants (csv (Sample.args o)) (Sample.args o)
               (files (mkWorld (Sample.disk Sample.indented) [])) = None
             \/ Forall one_underscore (extract (indent (Sample.args o)) Sample.indented))
    by (intros o; right; cbn [indent Sample.args]; rewrite sample_extract;
        repeat constructor).
  destruct (run_overwrite_policy (Sample.args true)
              (mkWorld (Sample.disk Sample.indented) []) Sample.indented "out.rs"
              (Hf true) (Hne true) (Hok true))
    as (Hr & _ & Hrs & _); [right; reflexivity | vm_compute; eauto |].
  destruct (run_overwrite_policy (Sample.args false)
              (mkWorld (Sample.disk Sample.indented) []) Sample.indented "out.csv"
              (Hf false) (Hne false) (Hok false))
    as (Hr' & Hkeep & _); [left; reflexivity | vm_compute; eauto |].
  split; [exact Hr |]. split; [exact Hr' |]. split.
  - rewrite (Hkeep eq_refl). vm_compute. reflexivity.
  - rewrite (Hrs eq_refl eq_refl). cbn [indent Sample.args].
    now rewrite sample_extract.
Defined.

(** C10 as stated fails.  With the overwrite flag, a run that extracts
    nothing leaves the existing CSV file as it was and returns 1, and a
    run whose CSV write aborts leaves the existing code file as it was. *)
Lemma run_overwrite_not_replaced :
  files (fst (run (Sample.args true) (mkWorld (Sample.disk Sample.no_rows) [])))
    !! "out.csv" = Some "old table"
  /\ snd (run (Sample.args true) (mkWorld (Sample.disk Sample.no_rows) []))
     = Returned 1%Z
  /\ snd (run (Sample.args false) (mkWorld (Sample.disk Sample.no_rows) []))
     = Returned 1%Z
  /\ files (fst (run (Sample.args true) (mkWorld (Sample.disk Sample.indented3) [])))
       !! "out.rs" = Some "old code"
  /\ snd (run (Sample.args true) (mkWorld (Sample.disk Sample.indented3) []))
     = Raised ValueError.
Proof. repeat split; vm_compute; reflexivity. Qed.

(** C7.  When the scan finds nothing, [run] prints the message and the
    usage, writes no file and returns 1; but the entry point drops that
    value, and the exit status of the process is 0. *)
Theorem main_exit_status_no_matches (args : Args) (w : World) (contents : string) :
  files w !! filename args = Some contents ->
  extract (indent args) contents = [] ->
  run args w
  = (mkWorld (files w) (stdout w ++ [Printed no_matches_message; UsagePrinted]),
     Returned 1%Z)
  /\ main args w
     = (mkWorld (files w) (stdout w ++ [Printed no_matches_message; UsagePrinted]),
        0%Z).
Proof.
  intros Hf He. pose proof (run_no_matches _ _ _ Hf He) as Hr.
  split; [exact Hr |]. unfold main. now rewrite Hr.
Qed.

Lemma main_exit_status_no_matches_witness :
  main (Sample.args false) (mkWorld (Sample.disk Sample.no_rows) [])
  = (mkWorld (Sample.disk Sample.no_rows)
       [Printed no_matches_message; UsagePrinted], 0%Z).
Proof.
  apply (main_exit_status_no_matches (Sample.args false)
           (mkWorld (Sample.disk Sample.no_rows) []) Sample.no_rows).
  - vm_compute. reflexivity.
  - vm_compute. reflexivity.
Defined.

End DriverClaims.

(** ** Tables of well-formed rows *)

Section Rows.

Lemma append_inv_tail (x x' z : string) : x ++ z = x' ++ z -> x = x'.
Proof.
  revert x'. induction x as [|a x IH]; intros [|a' x'] H; cbn [append] in H.
  - reflexivity.
  - apply (f_equal String.length) in H. cbn in H. rewrite length_append in H. lia.
  - apply (f_equal String.length) in H. cbn in H. rewrite length_append in H. lia.
  - injection H as -> H. now rewrite (IH _ H).
Qed.

Lemma append_last_char (c : ascii) (x x' y y' : string) :
  all_chars (fun a => negb (Ascii.eqb a c)) y = true ->
  all_chars (fun a => negb (Ascii.eqb a c)) y' = true ->
  x ++ String c y = x' ++ String c y' -> y = y'.
Proof.
  intros Hy Hy'. revert x'.
  induction x as [|a x IH]; intros [|a' x'] H; cbn [append] in H.
  - now injection H.
  - injection H as _ H. rewrite H, all_chars_append in Hy.
    cbn [all_chars] in Hy. rewrite Ascii.eqb_refl in Hy.
    cbn in Hy. rewrite andb_false_r in Hy. discriminate Hy.
  - injection H as _ H. rewrite <- H, all_chars_append in Hy'.
    cbn [all_chars] in Hy'. rewrite Ascii.eqb_refl in Hy'.
    cbn in Hy'. rewrite andb_false_r in Hy'. discriminate Hy'.
  - injection H as _ H. exact (IH _ H).
Qed.

Lemma word_not_gt (c : ascii) : Re.word c = true -> negb (Ascii.eqb c ">") = true.
Proof. destruct c as [[] [] [] [] [] [] [] []]; vm_compute; auto. Qed.

(** At a non-zero indent the text of a row determines its record and
    where the row ends. *)
Lemma row_text_unique (indent : Z) (r r' : Row) (rest rest' : string) :
  indent <> 0%Z -> row_shape r -> row_shape r' ->
  row_text indent r ++ rest = row_text indent r' ++ rest' ->
  record_of r = record_of r' /\ rest = rest'.
Proof.
  intros Hn (HA & HB & HI%identifier_all_word & _ & HL)
         (HA' & HB' & HI'%identifier_all_word & _ & HL') H.
  destruct r as [A B I L], r' as [A' B' I' L'].
  unfold row_text, row_sep, record_of in *. cbn [href anchor ident label] in *.
  apply Z.eqb_neq in Hn. rewrite Hn in H.
  rewrite !append_assoc in H.
  do 3 apply append_inv_head in H.
  apply (append_inv_head ("<td><a href=" ++ Py.dq ++ "variables/")) in H.
  (* the anchor line ends at the first line feed *)
  assert (Hline : forall A B I : string,
             all_chars Re.dot A = true -> all_chars Re.dot B = true ->
             all_chars Re.word I = true ->
             all_chars (fun a => negb (Ascii.eqb a (Py.chr 10)))
               (A ++ Py.dq ++ " name=" ++ Py.dq ++ B ++ Py.dq ++ ">" ++ I
                ++ "</a></td>") = true).
  { intros a b i Ha Hb Hi. rewrite !all_chars_append.
    change (all_chars (fun c => negb (Ascii.eqb c (Py.chr 10))) a)
      with (all_chars Re.dot a).
    change (all_chars (fun c => negb (Ascii.eqb c (Py.chr 10))) b)
      with (all_chars Re.dot b).
    rewrite Ha, Hb.
    change (all_chars (fun c => negb (Ascii.eqb c (Py.chr 10))) i)
      with (all_chars not_newline i).
    now rewrite (all_chars_impl _ _ _ word_not_newline Hi). }
  assert (H1 : (A ++ Py.dq ++ " name=" ++ Py.dq ++ B ++ Py.dq ++ ">" ++ I
                ++ "</a></td>")
               ++ String (Py.chr 10)
                    (Py.spaces indent ++ "<td>" ++ L ++ "</td>" ++ rest)
             = (A' ++ Py.dq ++ " name=" ++ Py.dq ++ B' ++ Py.dq ++ ">" ++ I'
                ++ "</a></td>")
               ++ String (Py.chr 10)
                    (Py.spaces indent ++ "<td>" ++ L' ++ "</td>" ++ rest')).
  { rewrite !append_assoc. exact H. }
  apply append_first_char in H1 as [Hl1 Hl2]; [| now apply Hline | now apply Hline].
  (* the label ends at the first less-than sign *)
  apply append_inv_head in Hl2. apply (append_inv_head "<td>") in Hl2.
  change ("</td>" ++ rest) with (String "<" ("/td>" ++ rest)) in Hl2.
  change ("</td>" ++ rest') with (String "<" ("/td>" ++ rest')) in Hl2.
  apply (append_first_char "<") in Hl2 as [-> Hrest];
    [| exact (all_chars_impl _ _ _ name_pat_not_lt HL)
     | exact (all_chars_impl _ _ _ name_pat_not_lt HL')].
  apply (append_inv_head "/td>") in Hrest.
  (* the identifier starts after the last greater-than sign *)
  assert (H2 : (A ++ Py.dq ++ " name=" ++ Py.dq ++ B ++ Py.dq) ++ String ">" I
               = (A' ++ Py.dq ++ " name=" ++ Py.dq ++ B' ++ Py.dq) ++ String ">" I').
  { apply (append_inv_tail _ _ "</a></td>"). rewrite !append_assoc.
    exact Hl1. }
  apply append_last_char in H2;
    [| exact (all_chars_impl _ _ _ word_not_gt HI)
     | exact (all_chars_impl _ _ _ word_not_gt HI')].
  subst. auto.
Qed.

(** So on a well-shaped row at a non-zero indent the matcher returns that
    row's record and stops at the end of the row. *)
Lemma exec_row_exact (indent : Z) (r : Row) (rest : string) :
  indent <> 0%Z -> row_shape r ->
  exists marks,
    Re.exec (pattern indent) (row_text indent r ++ rest) = Some (marks, rest)
    /\ Re.groups2 marks = record_of r.
Proof.
  intros Hn Hr. destruct (row_exec indent r rest Hr) as [[marks rest'] He].
  destruct (exec_row _ _ _ _ He) as (r' & Hr' & Hs & Hg).
  destruct (row_text_unique _ _ _ _ _ Hn Hr Hr' Hs) as [Hrec <-].
  exists marks. split; [exact He |]. now rewrite Hg, Hrec.
Qed.

Lemma exec_needs_tr (indent : Z) (s : string) :
  Py.startswith "<tr>" s = false -> Re.exec (pattern indent) s = None.
Proof.
  intros H. destruct (Re.exec (pattern indent) s) as [[marks rest]|] eqn:He;
    [| reflexivity].
  destruct (exec_row _ _ _ _ He) as (r & _ & -> & _). discriminate H.
Qed.

Lemma row_text_cons (indent : Z) (r : Row) :
  exists m, row_text indent r = String "<" m.
Proof. eexists. unfold row_text. cbn [append]. reflexivity. Qed.

(** The scan of a table of well-shaped rows at a non-zero indent returns
    the records of the rows, one each, in document order. *)
Lemma extract_document (indent : Z) (rows : list Row) :
  indent <> 0%Z -> Forall row_shape rows ->
  extract indent (document indent rows) = map record_of rows.
Proof.
  intros Hn. unfold extract, Re.findall.
  induction 1 as [|r rows Hr _ IH]; cbn [document map].
  - cbn [Re.findall_from]. now rewrite exec_needs_tr.
  - destruct (exec_row_exact indent r (row_end indent ++ document indent rows) Hn Hr)
      as (marks & He & Hg).
    destruct (row_text_cons indent r) as [m Hm]. rewrite Hm in *.
    rewrite (findall_from_match _ _ _ _ _ He), Hg. f_equal.
    unfold row_end. apply Z.eqb_neq in Hn. rewrite Hn.
    unfold Py.nl, Py.str1. cbn [append].
    do 7 (rewrite findall_from_miss by (apply exec_needs_tr; reflexivity)).
    exact IH.
Qed.

End Rows.

Section ExtractClaim.

Lemma row_b_shape : row_shape Sample.row_b.
Proof.
  repeat split; try reflexivity; try discriminate.
  exists "B01002", "001E". repeat split; discriminate.
Qed.

(** C1.  At a non-zero indent the scan of a table made of N well-shaped
    rows returns exactly the N records of the rows, in document order;
    at any indent every record returned has the shape of a matched row,
    and a text in which no row opens gives the empty list.  At indent 0
    the count fails: of two well-shaped rows that share a line the scan
    returns one record, that of the second row, because the greedy
    repetition in the link target runs on to the last row of the line. *)
Theorem extract_rows :
  (forall indent rows,
      indent <> 0%Z -> Forall row_shape rows ->
      extract indent (document indent rows) = map record_of rows)
  /\ (forall indent contents, Forall record_shape (extract indent contents))
  /\ (forall indent contents,
         contains "<tr>" contents = false -> extract indent contents = [])
  /\ Forall row_shape [Sample.row_a; Sample.row_b]
  /\ extract 0 (document 0 [Sample.row_a; Sample.row_b])
     = [record_of Sample.row_b].
Proof.
  split; [exact extract_document |]. split; [exact extract_shape |].
  split; [| split].
  - intros indent contents Hc. apply findall_from_nil. intros t Ht.
    apply exec_needs_tr. exact (contains_suffix _ _ _ Hc Ht).
  - constructor; [apply row_a_shape |].
    constructor; [apply row_b_shape | constructor].
  - vm_compute. reflexivity.
Qed.

Lemma extract_rows_witness :
  extract 2 (document 2 [Sample.row_a; Sample.row_b])
  = [record_of Sample.row_a; record_of Sample.row_b]
  /\ extract 2 Sample.no_rows = [].
Proof.
  destruct extract_rows as (Hrows & _ & Hnone & Hshape & _). split.
  - apply (Hrows 2%Z [Sample.row_a; Sample.row_b]); [discriminate | exact Hshape].
  - apply Hnone. reflexivity.
Defined.

End ExtractClaim.

Section NormaliserClaim.

Lemma drop_colons_none (s : string) : contains ":" (drop_colons s) = false.
Proof.
  induction s as [|c s IH]; [reflexivity |]. cbn [drop_colons].
  destruct (Ascii.eqb c ":") eqn:Hc; [exact IH |].
  now rewrite contains_cons, (startswith_char ":" c), Hc, IH.
Qed.

Lemma spaces_to_underscores_colons (s : string) :
  contains ":" (spaces_to_underscores s) = contains ":" s.
Proof.
  induction s as [|c s IH]; [reflexivity |]. cbn [spaces_to_underscores].
  rewrite !contains_cons, !(startswith_char ":"), IH. f_equal.
  destruct (Ascii.eqb_spec c " ") as [->|_]; reflexivity.
Qed.

Lemma spaces_to_underscores_none (s : string) :
  contains " " (spaces_to_underscores s) = false.
Proof.
  induction s as [|c s IH]; [reflexivity |]. cbn [spaces_to_underscores].
  rewrite contains_cons, (startswith_char " "), IH.
  destruct (Ascii.eqb c " ") eqn:Hc; [reflexivity | now rewrite Hc].
Qed.

(** C2.  [to_name_path] is the composition the specification words:
    lowercase, each pair of exclamation marks to a full stop, colons
    dropped, spaces to underscores, every other character copied.  It is
    a total function; the empty label gives the empty path; the result
    holds no colon and no space; and a label without a pair of
    exclamation marks, a colon or a space is only lowercased. *)
Theorem to_name_path_normalizes :
  (forall label, to_name_path label = spec_normalize label)
  /\ to_name_path EmptyString = EmptyString
  /\ (forall label,
         contains ":" (to_name_path label) = false
         /\ contains " " (to_name_path label) = false)
  /\ (forall label,
         contains "!!" label = false ->
         contains ":" label = false ->
         contains " " label = false ->
         to_name_path label = Py.lower label).
Proof.
  split; [exact to_name_path_spec |]. split; [reflexivity |]. split.
  - intros label. rewrite to_name_path_spec. unfold spec_normalize. split.
    + rewrite spaces_to_underscores_colons. apply drop_colons_none.
    + apply spaces_to_underscores_none.
  - exact to_name_path_plain.
Qed.

Lemma to_name_path_normalizes_witness :
  to_name_path "B01001 Total" = spec_normalize "B01001 Total"
  /\ to_name_path "Estimate" = "estimate".
Proof.
  destruct to_name_path_normalizes as (Hspec & _ & _ & Hplain). split.
  - apply Hspec.
  - apply (Hplain "Estimate"); reflexivity.
Defined.

End NormaliserClaim.

(** * Further properties of the code *)

(** ** More on the normaliser *)

Section NormaliserMore.

Lemma length_bangs_to_dots (s : string) :
  (String.length (bangs_to_dots s) <= String.length s)
  /\ (forall c, String.length (bangs_to_dots (String c s)) <= S (String.length s)).
Proof.
  induction s as [|a s [IH1 IH2]]; [split; [| intros c]; cbn; lia |].
  split; [apply IH2 |]. intros c. rewrite bangs_to_dots_2.
  destruct (Ascii.eqb c "!" && Ascii.eqb a "!"); cbn [String.length].
  - lia.
  - specialize (IH2 a). lia.
Qed.

Lemma length_bangs_to_dots_lt (s : string) :
  contains "!!" s = true -> String.length (bangs_to_dots s) < String.length s.
Proof.
  induction s as [|a s IH]; [discriminate |].
  rewrite contains_cons. destruct s as [|d r].
  - cbn [Py.startswith contains]. destruct (Ascii.eqb "!" a); discriminate.
  - rewrite startswith_bangs, bangs_to_dots_2.
    destruct (Ascii.eqb a "!" && Ascii.eqb d "!"); cbn [orb String.length].
    + intros _. pose proof (proj1 (length_bangs_to_dots r)). lia.
    + intros H. specialize (IH H). cbn [String.length] in IH. lia.
Qed.

Lemma length_drop_colons (s : string) :
  String.length (drop_colons s) <= String.length s.
Proof.
  induction s as [|c s IH]; [reflexivity |]. cbn [drop_colons].
  destruct (Ascii.eqb c ":"); cbn [String.length]; lia.
Qed.

Lemma length_spaces_to_underscores (s : string) :
  String.length (spaces_to_underscores s) = String.length s.
Proof. induction s as [|c s IH]; [reflexivity |]. cbn. now rewrite IH. Qed.

(** Each step of the normaliser seen on character classes. *)
Lemma lower_all (P Q : ascii -> bool) (s : string) :
  (forall c, P c = true -> Q (Py.lower_char c) = true) ->
  all_chars P s = true -> all_chars Q (Py.lower s) = true.
Proof.
  intros HPQ. induction s as [|c s IH]; [reflexivity |].
  cbn [all_chars Py.lower]. intros [Hc Hs]%andb_true_iff.
  now rewrite (HPQ _ Hc), IH.
Qed.

Lemma bangs_to_dots_all (Q : ascii -> bool) (s : string) :
  Q "."%char = true ->
  (all_chars Q s = true -> all_chars Q (bangs_to_dots s) = true)
  /\ (forall c, all_chars Q (String c s) = true ->
                all_chars Q (bangs_to_dots (String c s)) = true).
Proof.
  intros Hdot.
  induction s as [|a s [IH1 IH2]]; [split; [| intros c]; trivial |].
  split; [apply IH2 |]. intros c H. rewrite bangs_to_dots_2.
  cbn [all_chars] in H. apply andb_true_iff in H as [Hc H].
  destruct (Ascii.eqb c "!" && Ascii.eqb a "!").
  - cbn [all_chars] in *. apply andb_true_iff in H as [_ H].
    now rewrite Hdot, IH1.
  - cbn [all_chars]. now rewrite Hc, IH2.
Qed.

Lemma drop_colons_all (Q R : ascii -> bool) (s : string) :
  (forall c, Q c = true -> Ascii.eqb c ":" = false -> R c = true) ->
  all_chars Q s = true -> all_chars R (drop_colons s) = true.
Proof.
  intros HQR. induction s as [|c s IH]; [reflexivity |].
  cbn [all_chars drop_colons]. intros [Hc Hs]%andb_true_iff.
  destruct (Ascii.eqb c ":") eqn:E; [now apply IH |].
  cbn [all_chars]. now rewrite (HQR _ Hc E), IH.
Qed.

Lemma spaces_to_underscores_all (Q R : ascii -> bool) (s : string) :
  (forall c, Q c = true -> R (if Ascii.eqb c " " then "_"%char else c) = true) ->
  all_chars Q s = true -> all_chars R (spaces_to_underscores s) = true.
Proof.
  intros HQR. induction s as [|c s IH]; [reflexivity |].
  cbn [all_chars spaces_to_underscores]. intros [Hc Hs]%andb_true_iff.
  now rewrite (HQR _ Hc), IH.
Qed.

Lemma to_name_path_all (P Q R : ascii -> bool) (name : string) :
  Q "."%char = true ->
  (forall c, P c = true -> Q (Py.lower_char c) = true) ->
  (forall c, Q c = true -> Ascii.eqb c ":" = false ->
             R (if Ascii.eqb c " " then "_"%char else c) = true) ->
  all_chars P name = true -> all_chars R (to_name_path name) = true.
Proof.
  intros Hdot Hlow Hrest H. rewrite to_name_path_spec. unfold spec_normalize.
  apply (spaces_to_underscores_all
           (fun c => R (if Ascii.eqb c " " then "_"%char else c))); [auto |].
  apply (drop_colons_all Q); [exact Hrest |].
  apply bangs_to_dots_all; [exact Hdot |].
  now apply (lower_all P).
Qed.

Lemma lower_char_lowered (c : ascii) : Py.is_upper (Py.lower_char c) = false.
Proof. destruct c as [[] [] [] [] [] [] [] []]; vm_compute; reflexivity. Qed.

Lemma lower_char_fixed (c : ascii) : Py.is_upper c = false -> Py.lower_char c = c.
Proof. intros H. unfold Py.lower_char. now rewrite H. Qed.

Lemma lower_fixed (s : string) :
  all_chars (fun c => negb (Py.is_upper c)) s = true -> Py.lower s = s.
Proof.
  induction s as [|c s IH]; [reflexivity |]. cbn [all_chars Py.lower].
  intros [Hc Hs]%andb_true_iff. apply negb_true_iff in Hc.
  now rewrite (lower_char_fixed _ Hc), IH.
Qed.

Lemma to_name_path_lowered (name : string) :
  Py.lower (to_name_path name) = to_name_path name.
Proof.
  apply lower_fixed.
  apply (to_name_path_all (fun _ => true) (fun c => negb (Py.is_upper c))).
  - reflexivity.
  - intros c _. now rewrite lower_char_lowered.
  - intros c Hc _. destruct (Ascii.eqb c " "); [reflexivity | exact Hc].
  - induction name as [|c s IH]; [reflexivity | exact IH].
Qed.

Lemma to_name_path_clean (name : string) :
  contains ":" (to_name_path name) = false
  /\ contains " " (to_name_path name) = false.
Proof.
  rewrite to_name_path_spec. unfold spec_normalize. split.
  - rewrite spaces_to_underscores_colons. apply drop_colons_none.
  - apply spaces_to_underscores_none.
Qed.

(** X1.  Normalising twice gives the same as normalising once exactly
    when the first result holds no pair of exclamation marks; otherwise
    the second pass turns such a pair into a full stop and the result
    gets shorter. *)
Theorem to_name_path_idempotent_iff (name : string) :
  to_name_path (to_name_path name) = to_name_path name
  <-> contains "!!" (to_name_path name) = false.
Proof.
  destruct (to_name_path_clean name) as [Hcolon Hspace]. split.
  - intros Heq. destruct (contains "!!" (to_name_path name)) eqn:Hb; [| reflexivity].
    apply (f_equal String.length) in Heq.
    rewrite (to_name_path_spec (to_name_path name)) in Heq.
    unfold spec_normalize in Heq.
    rewrite to_name_path_lowered, length_spaces_to_underscores in Heq.
    pose proof (length_drop_colons (bangs_to_dots (to_name_path name))).
    pose proof (length_bangs_to_dots_lt _ Hb). lia.
  - intros Hb. rewrite (to_name_path_plain _ Hb Hcolon Hspace).
    apply to_name_path_lowered.
Qed.

(** The normaliser maps the characters of the label class into the
    path alphabet. *)
Lemma to_name_path_path_chars (label : string) :
  all_chars name_pat label = true ->
  all_chars path_char (to_name_path label) = true.
Proof.
  apply (to_name_path_all name_pat
           (fun c => path_char c || Ascii.eqb c ":" || Ascii.eqb c " ")).
  - reflexivity.
  - intros c. destruct c as [[] [] [] [] [] [] [] []]; vm_compute; auto.
  - intros c. destruct c as [[] [] [] [] [] [] [] []]; vm_compute; auto.
Qed.



Lemma bangs_to_dots_colons (s : string) :
  (all_chars is_colon (bangs_to_dots s) = true -> all_chars is_colon s = true)
  /\ (forall c, all_chars is_colon (bangs_to_dots (String c s)) = true ->
                all_chars is_colon (String c s) = true).
Proof.
  induction s as [|a s [IH1 IH2]]; [split; [| intros c]; trivial |].
  split; [apply IH2 |]. intros c. rewrite bangs_to_dots_2.
  destruct (Ascii.eqb c "!" && Ascii.eqb a "!").
  - cbn [all_chars]. discriminate.
  - cbn [all_chars]. intros [Hc H]%andb_true_iff.
    apply IH2 in H. cbn [all_chars] in H. now rewrite Hc, H.
Qed.

Lemma drop_colons_empty (s : string) :
  drop_colons s = EmptyString <-> all_chars is_colon s = true.
Proof.
  induction s as [|c s IH]; [split; reflexivity |].
  cbn [drop_colons all_chars]. unfold is_colon at 1.
  destruct (Ascii.eqb c ":"); [exact IH | split; discriminate].
Qed.

Lemma lower_colons (s : string) :
  all_chars is_colon (Py.lower s) = all_chars is_colon s.
Proof.
  induction s as [|c s IH]; [reflexivity |].
  cbn [Py.lower all_chars]. unfold is_colon at 1 3.
  now rewrite (proj1 (proj2 (lower_char_eqb c))), IH.
Qed.

Lemma colons_no_bangs (s : string) :
  all_chars is_colon s = true -> contains "!!" s = false.
Proof.
  induction s as [|c s IH]; [reflexivity |].
  cbn [all_chars]. intros [Hc Hs]%andb_true_iff.
  rewrite contains_cons, (IH Hs), orb_false_r.
  cbn [Py.startswith]. unfold is_colon in Hc. apply Ascii.eqb_eq in Hc as ->.
  reflexivity.
Qed.

(** X3.  The normalised label is empty exactly for the labels made of
    colons only (the empty label among them): such a record gets an
    empty third CSV field and an empty path literal. *)
Theorem to_name_path_empty_iff (label : string) :
  to_name_path label = EmptyString <-> all_chars is_colon label = true.
Proof.
  rewrite to_name_path_spec. unfold spec_normalize. split.
  - intros H.
    assert (Hd : drop_colons (bangs_to_dots (Py.lower label)) = EmptyString).
    { destruct (drop_colons (bangs_to_dots (Py.lower label))); [reflexivity |].
      discriminate H. }
    apply drop_colons_empty, bangs_to_dots_colons in Hd.
    now rewrite lower_colons in Hd.
  - intros H. rewrite <- lower_colons in H.
    rewrite (bangs_to_dots_id _ (colons_no_bangs _ H)).
    apply drop_colons_empty in H. now rewrite H.
Qed.

End NormaliserMore.

(** ** More on the CSV emitter *)

Section CsvMore.

Lemma path_char_not_newline (c : ascii) : path_char c = true -> not_newline c = true.
Proof. destruct c as [[] [] [] [] [] [] [] []]; vm_compute; auto. Qed.

Lemma lines_rows (rows bodies : list string) :
  Forall2 (fun row body => row = body ++ Py.nl /\ all_chars not_newline body = true)
    rows bodies ->
  lines (text_of rows) = (bodies ++ [EmptyString])%list.
Proof.
  induction 1 as [|row body rows bodies [-> Hb] _ IH]; [reflexivity |].
  cbn [text_of fold_right]. fold (text_of rows).
  now rewrite append_assoc, lines_append, IH, (lines_one _ Hb).
Qed.

(** The cells of the row written for one record. *)
Lemma csv_row_cells (m : string * string) (row : string) :
  record_shape m -> csv_row_of m row ->
  exists body,
    row = body ++ Py.nl /\ all_chars not_newline body = true
    /\ Py.split "," body = (Py.split "_" (fst m) ++ [to_name_path (snd m)])%list.
Proof.
  intros [Hi%identifier_all_word [_ Hl]] (g & sg & Hid & Hg & Hsg & ->).
  rewrite <- Hid in Hi |- *. rewrite !all_chars_append in Hi.
  apply andb_true_iff in Hi as [Hgw Hi]. apply andb_true_iff in Hi as [_ Hsgw].
  pose proof (to_name_path_path_chars _ Hl) as Hp.
  exists (g ++ "," ++ sg ++ "," ++ to_name_path (snd m)). split; [| split].
  - now rewrite !append_assoc.
  - rewrite !all_chars_append.
    rewrite (all_chars_impl _ _ _ word_not_newline Hgw).
    rewrite (all_chars_impl _ _ _ word_not_newline Hsgw).
    now rewrite (all_chars_impl _ _ _ path_char_not_newline Hp).
  - change (g ++ "_" ++ sg) with (g ++ String "_" sg).
    change (g ++ "," ++ sg ++ "," ++ to_name_path (snd m))
      with (g ++ String "," (sg ++ String "," (to_name_path (snd m)))).
    rewrite !split_append, (split_none "_" g Hg), (split_none "_" sg Hsg).
    rewrite (split_none "," g), (split_none "," sg), (split_none "," (to_name_path (snd m)));
      [reflexivity | | |].
    + now apply (count_char_all _ path_char).
    + now apply (count_char_all _ Re.word).
    + now apply (count_char_all _ Re.word).
Qed.

Lemma csv_rows_cells (ms : list (string * string)) (rows : list string) :
  Forall record_shape ms -> Forall2 csv_row_of ms rows ->
  csv_cells (text_of rows)
  = (map (fun m => Py.split "_" (fst m) ++ [to_name_path (snd m)])%list ms
     ++ [[EmptyString]])%list.
Proof.
  intros Hs Hr. unfold csv_cells.
  assert (H : exists bodies,
             Forall2 (fun row body => row = body ++ Py.nl
                                      /\ all_chars not_newline body = true)
               rows bodies
             /\ map (Py.split ",") bodies
                = map (fun m => Py.split "_" (fst m) ++ [to_name_path (snd m)])%list ms).
  { clear -Hs Hr. induction Hr as [|m row ms rows Hrow _ IH].
    - exists []. split; [constructor | reflexivity].
    - apply Forall_cons_1 in Hs as [Hm Hs].
      destruct (IH Hs) as (bodies & Hb & He).
      destruct (csv_row_cells m row Hm Hrow) as (body & Hbody & Hnl & Hc).
      exists (body :: bodies). split; [constructor; auto |].
      cbn [map]. now rewrite Hc, He. }
  destruct H as (bodies & Hb & He).
  now rewrite (lines_rows _ _ Hb), map_app, He.
Qed.

(** X4.  The CSV file reads back: for records of the shape the extractor
    returns, each with one underscore in its identifier, splitting the
    written text into lines and the lines at the commas gives the three
    header names, then for each record in order its group, sub-group and
    normalised label, then the empty line after the last line feed.  No
    field holds a comma or a line feed, though none is quoted. *)
Theorem write_csv_reads_back (matches : list (string * string))
    (csv_filename : string) (fs : gmap string string) :
  Forall record_shape matches ->
  Forall one_underscore matches ->
  exists text,
    fst (write_csv matches csv_filename fs) !! csv_filename = Some text
    /\ csv_cells text
       = (["group"; "variable"; "path"]
          :: map (fun m => Py.split "_" (fst m) ++ [to_name_path (snd m)])%list matches
          ++ [[EmptyString]])%list.
Proof.
  intros Hs Ho. destruct (write_csv_all matches csv_filename fs Ho) as (rows & Hr & ->).
  eexists. split; [apply lookup_insert_eq |].
  unfold csv_cells. rewrite lines_append, map_app.
  change (map (Py.split ",") (lines csv_header))
    with [["group"; "variable"; "path"]].
  cbn [app]. f_equal. exact (csv_rows_cells _ _ Hs Hr).
Qed.

Lemma write_csv_reads_back_witness :
  exists text,
    fst (write_csv Sample.records "out.csv" ∅) !! "out.csv" = Some text
    /\ csv_cells text
       = [ ["group"; "variable"; "path"]
         ; ["B01001"; "001E"; "estimate.total"]
         ; ["B01002"; "001E"; "estimate.median_age"]
         ; [EmptyString] ].
Proof.
  apply (write_csv_reads_back Sample.records "out.csv" ∅).
  - exact sample_records_shape.
  - repeat constructor.
Defined.

End CsvMore.

(** ** What the emitters and the driver do to the files *)

Section Files.

Lemma write_csv_rows_text (matches : list (string * string)) (dest : string)
    (fs : gmap string string) (c : string) :
  write_csv_rows matches dest (<[dest := c]> fs)
  = (<[dest := c ++ fst (csv_rows_text matches)]> fs, snd (csv_rows_text matches)).
Proof.
  revert c. induction matches as [|[identifier name] ms IH]; intros c.
  - cbn. now rewrite append_nil_r.
  - cbn [write_csv_rows csv_rows_text].
    destruct (Py.split "_" identifier) as [|g [|sg [|x l]]];
      try (cbn; now rewrite append_nil_r).
    rewrite write_insert, IH. destruct (csv_rows_text ms) as [text r].
    cbn [fst snd]. now rewrite !append_assoc.
Qed.

Lemma write_csv_text (matches : list (string * string)) (dest : string)
    (fs : gmap string string) :
  write_csv matches dest fs
  = (<[dest := csv_header ++ Py.nl ++ fst (csv_rows_text matches)]> fs,
     snd (csv_rows_text matches)).
Proof. now rewrite write_csv_start, write_csv_rows_text, append_assoc. Qed.

(** X5.  An emitter touches its destination only, and what it leaves
    there and how it ends depend on nothing but the records: whatever
    the destination held before is gone, every other path keeps its
    content, and the destination exists afterwards, also when
    [write_csv] aborts. *)
Theorem emitters_write_destination_only (matches : list (string * string))
    (dest : string) (fs : gmap string string) :
  (forall old, write_csv matches dest (<[dest := old]> fs) = write_csv matches dest fs)
  /\ (forall old, write_rust matches dest (<[dest := old]> fs) = write_rust matches dest fs)
  /\ (forall path, path <> dest ->
        fst (write_csv matches dest fs) !! path = fs !! path
        /\ fst (write_rust matches dest fs) !! path = fs !! path)
  /\ is_Some (fst (write_csv matches dest fs) !! dest)
  /\ is_Some (fst (write_rust matches dest fs) !! dest)
  /\ (forall dest' fs',
        snd (write_csv matches dest' fs') = snd (write_csv matches dest fs)
        /\ fst (write_csv matches dest' fs') !! dest'
           = fst (write_csv matches dest fs) !! dest
        /\ fst (write_rust matches dest' fs') !! dest'
           = fst (write_rust matches dest fs) !! dest).
Proof.
  split; [| split; [| split; [| split; [| split]]]].
  - intros old. now rewrite !write_csv_text, insert_insert_eq.
  - intros old. now rewrite !write_rust_text, insert_insert_eq.
  - intros path Hp. rewrite write_csv_text, write_rust_text. cbn [fst].
    split; now apply lookup_insert_ne.
  - rewrite write_csv_text. cbn [fst]. rewrite lookup_insert_eq. eauto.
  - rewrite write_rust_text. cbn [fst]. rewrite lookup_insert_eq. eauto.
  - intros dest' fs'. rewrite !write_csv_text, !write_rust_text. cbn [fst snd].
    now rewrite !lookup_insert_eq.
Qed.

(** The two steps of [run] after the check for records. *)
Lemma run_files (args : Args) (w : World) :
  files (fst (run args w)) = files w
  \/ (exists pc t, wants (csv args) args (files w) = Some pc
                   /\ files (fst (run args w)) = <[pc := t]> (files w))
  \/ (exists pr t, wants (rs args) args (files w) = Some pr
                   /\ files (fst (run args w)) = <[pr := t]> (files w))
  \/ (exists pc t pr t',
         wants (csv args) args (files w) = Some pc
         /\ wants (rs args) args (<[pc := t]> (files w)) = Some pr
         /\ files (fst (run args w)) = <[pr := t']> (<[pc := t]> (files w))).
Proof.
  unfold run. destruct (files w !! filename args) as [contents|]; [| now left].
  destruct (List.length (extract (indent args) contents) =? 0)%nat; [now left |].
  destruct (wants (csv args) args (files w)) as [pc|] eqn:Hc.
  - rewrite write_csv_text.
    destruct (snd (csv_rows_text (extract (indent args) contents))) as [[]|e].
    + destruct (wants (rs args) args _) as [pr|] eqn:Hr.
      * rewrite write_rust_text. cbn [fst files]. right; right; right. eauto 10.
      * cbn [fst files]. right; left. eauto.
    + cbn [fst files]. right; left. eauto.
  - destruct (wants (rs args) args (files w)) as [pr|] eqn:Hr.
    + rewrite write_rust_text. cbn [fst files]. right; right; left. eauto.
    + now left.
Qed.

Lemma run_frame (args : Args) (w : World) (path : string) :
  (csv args <> Some path -> rs args <> Some path ->
   files (fst (run args w)) !! path = files w !! path)
  /\ (overwrite args = false -> is_Some (files w !! path) ->
      files (fst (run args w)) !! path = files w !! path).
Proof.
  destruct (run_files args w)
    as [->|[(pc & t & Hc & ->)|[(pr & t & Hr & ->)|(pc & t & pr & t' & Hc & Hr & ->)]]].
  - auto.
  - apply wants_cases in Hc as [Hc Hc']. split.
    + intros H _. apply lookup_insert_ne. congruence.
    + intros Ho [x Hx]. apply lookup_insert_ne.
      destruct Hc' as [Hn|Hn]; congruence.
  - apply wants_cases in Hr as [Hr Hr']. split.
    + intros _ H. apply lookup_insert_ne. congruence.
    + intros Ho [x Hx]. apply lookup_insert_ne.
      destruct Hr' as [Hn|Hn]; congruence.
  - apply wants_cases in Hc as [Hc Hc']. apply wants_cases in Hr as [Hr Hr'].
    split.
    + intros H1 H2. rewrite !lookup_insert_ne by congruence. reflexivity.
    + intros Ho [x Hx].
      assert (Hpc : pc <> path) by (destruct Hc' as [Hn|Hn]; congruence).
      rewrite lookup_insert_ne; [now apply lookup_insert_ne |].
      destruct Hr' as [Hn|Hn]; [| congruence].
      intros ->. rewrite lookup_insert_ne in Hn by exact Hpc. congruence.
Qed.

Lemma run_keeps (args : Args) (w : World) (path : string) :
  overwrite args = false -> is_Some (files w !! path) ->
  files (fst (run args w)) !! path = files w !! path.
Proof. apply run_frame. Qed.

(** X6.  Whatever the run does, also when it ends in an exception, it
    changes no file other than the two destinations it was given, and
    without the overwrite flag it changes no file that exists. *)
Theorem run_changes_only_destinations (args : Args) (w : World) (path : string) :
  (csv args <> Some path -> rs args <> Some path ->
   files (fst (run args w)) !! path = files w !! path)
  /\ (overwrite args = false -> is_Some (files w !! path) ->
      files (fst (run args w)) !! path = files w !! path).
Proof. apply run_frame. Qed.

Lemma run_changes_only_destinations_witness :
  files (fst (run (Sample.args false)
                (mkWorld (Sample.disk Sample.indented3) []))) !! "out.csv"
  = Some "old table".
Proof.
  rewrite (proj2 (run_changes_only_destinations (Sample.args false)
                    (mkWorld (Sample.disk Sample.indented3) []) "out.csv")
             eq_refl).
  - vm_compute. reflexivity.
  - vm_compute. eauto.
Defined.

End Files.

(** ** How a run ends, and running again *)

Section Outcomes.



(** The result of a run that found records, step by step. *)
Lemma run_result (args : Args) (w : World) (contents : string) :
  files w !! filename args = Some contents ->
  extract (indent args) contents <> [] ->
  let ms := extract (indent args) contents in
  let rust_step fs1 :=
    (mkWorld match wants (rs args) args fs1 with
             | Some pr => <[pr := rust_text ms]> fs1
             | None => fs1
             end (stdout w), Returned 0%Z) in
  run args w =
  match wants (csv args) args (files w) with
  | Some pc =>
      let fs1 := <[pc := csv_header ++ Py.nl ++ fst (csv_rows_text ms)]> (files w) in
      match snd (csv_rows_text ms) with
      | Raised e => (mkWorld fs1 (stdout w), Raised e)
      | Returned _ => rust_step fs1
      end
  | None => rust_step (files w)
  end.
Proof.
  intros Hf Hne. rewrite (run_matches _ _ _ Hf Hne). cbv zeta.
  destruct (wants (csv args) args (files w)) as [pc|].
  - rewrite write_csv_text.
    destruct (snd (csv_rows_text (extract (indent args) contents))); [| reflexivity].
    destruct (wants (rs args) args _); [now rewrite write_rust_text | reflexivity].
  - destruct (wants (rs args) args _); [now rewrite write_rust_text | reflexivity].
Qed.




Lemma wants_none (path : string) (args : Args) (fs : gmap string string) :
  wants (Some path) args fs = None ->
  is_Some (fs !! path) /\ overwrite args = false.
Proof.
  unfold wants, Fs.path_exists.
  destruct (bool_decide_reflect (is_Some (fs !! path))) as [Hp|Hp];
    cbn [negb orb]; [| discriminate].
  destruct (overwrite args); [discriminate | auto].
Qed.

Lemma wants_existing (target : option string) (args : Args) (fs : gmap string string) :
  overwrite args = false ->
  (forall path, target = Some path -> is_Some (fs !! path)) ->
  wants target args fs = None.
Proof.
  intros Ho Hex. unfold wants, Fs.path_exists. destruct target as [p|]; [| reflexivity].
  rewrite Ho, (bool_decide_eq_true_2 _ (Hex p eq_refl)). reflexivity.
Qed.

Lemma insert_keeps_some (p q x : string) (fs : gmap string string) :
  is_Some (fs !! p) -> is_Some (<[q := x]> fs !! p).
Proof. intros H. apply lookup_insert_is_Some'. now right. Qed.

Lemma insert_is_some (p x : string) (fs : gmap string string) :
  is_Some (<[p := x]> fs !! p).
Proof. rewrite lookup_insert_eq. eauto. Qed.

(** After a run that returned 0 every destination it was given exists. *)
Lemma run_success_exists (args : Args) (w : World) (path : string) :
  snd (run args w) = Returned 0%Z ->
  csv args = Some path \/ rs args = Some path ->
  is_Some (files (fst (run args w)) !! path).
Proof.
  intros H0 Hreq.
  destruct (files w !! filename args) as [contents|] eqn:Hf;
    [| unfold run in H0; rewrite Hf in H0; discriminate H0].
  destruct (decide (extract (indent args) contents = [])) as [He|Hne];
    [rewrite (run_no_matches _ _ _ Hf He) in H0; discriminate H0 |].
  rewrite (run_result _ _ _ Hf Hne) in *. cbv zeta in *.
  assert (Hstep : forall fs1,
             (csv args = Some path -> is_Some (fs1 !! path)) ->
             is_Some (match wants (rs args) args fs1 with
                      | Some pr => <[pr := rust_text (extract (indent args) contents)]> fs1
                      | None => fs1
                      end !! path)).
  { intros fs1 Hfs1. destruct Hreq as [Hc|Hr].
    - destruct (wants (rs args) args fs1); [apply insert_keeps_some |]; auto.
    - rewrite Hr. destruct (wants (Some path) args fs1) as [pr|] eqn:Hw.
      + apply wants_cases in Hw as [[= <-] _]. apply insert_is_some.
      + now apply wants_none in Hw. }
  destruct (csv args) as [pc|] eqn:Hcsv.
  - destruct (wants (Some pc) args (files w)) as [pc'|] eqn:Hw.
    + apply wants_cases in Hw as [[= <-] _].
      destruct (snd (csv_rows_text _)); [| discriminate H0].
      cbn [fst files]. apply Hstep. intros [= <-]. apply insert_is_some.
    + cbn [fst files]. apply Hstep. intros [= <-]. now apply wants_none in Hw.
  - cbn [wants fst files]. apply Hstep. discriminate.
Qed.

(** X8.  Without the overwrite flag a second run after one that
    returned 0 is a no-op: it returns 0 again and leaves every file, and
    the output, as the first run left them. *)
Theorem run_again_is_noop (args : Args) (w : World) :
  overwrite args = false ->
  snd (run args w) = Returned 0%Z ->
  run args (fst (run args w)) = (fst (run args w), Returned 0%Z).
Proof.
  intros Ho H0.
  destruct (files w !! filename args) as [contents|] eqn:Hf;
    [| unfold run in H0; rewrite Hf in H0; discriminate H0].
  destruct (decide (extract (indent args) contents = [])) as [He|Hne];
    [rewrite (run_no_matches _ _ _ Hf He) in H0; discriminate H0 |].
  pose proof (run_success_exists args w) as Hex. specialize (fun p => Hex p H0).
  assert (Hsrc : files (fst (run args w)) !! filename args = Some contents).
  { rewrite <- Hf. apply run_keeps; [exact Ho | rewrite Hf; eauto]. }
  destruct (fst (run args w)) as [fs' out'] eqn:Hw'. cbn [files] in *.
  rewrite (run_result _ (mkWorld fs' out') contents Hsrc Hne). cbv zeta. cbn [files stdout].
  rewrite (wants_existing (csv args) args fs' Ho) by (intros p Hp; apply Hex; auto).
  rewrite (wants_existing (rs args) args fs' Ho) by (intros p Hp; apply Hex; auto).
  reflexivity.
Qed.

Lemma run_again_is_noop_witness :
  let w := mkWorld (<["acs.html" := Sample.indented]> ∅) [] in
  run (Sample.args false) (fst (run (Sample.args false) w))
  = (fst (run (Sample.args false) w), Returned 0%Z).
Proof.
  cbv zeta. apply run_again_is_noop; [reflexivity |].
  vm_compute. reflexivity.
Defined.

(** X9.  Without the overwrite flag, running again after a run in which
    the CSV write aborted returns 0: the truncated CSV file now exists,
    so the CSV step is skipped and the file stays as the abort left it. *)
Theorem run_after_abort_succeeds (args : Args) (w : World) :
  overwrite args = false ->
  snd (run args w) = Raised ValueError ->
  snd (run args (fst (run args w))) = Returned 0%Z
  /\ (forall path, csv args = Some path ->
        is_Some (files (fst (run args w)) !! path)
        /\ files (fst (run args (fst (run args w)))) !! path
           = files (fst (run args w)) !! path).
Proof.
  intros Ho Hv.
  destruct (files w !! filename args) as [contents|] eqn:Hf;
    [| unfold run in Hv; rewrite Hf in Hv; discriminate Hv].
  destruct (decide (extract (indent args) contents = [])) as [He|Hne];
    [rewrite (run_no_matches _ _ _ Hf He) in Hv; discriminate Hv |].
  assert (Hsrc : files (fst (run args w)) !! filename args = Some contents).
  { rewrite <- Hf. apply run_keeps; [exact Ho | rewrite Hf; eauto]. }
  assert (Hcsv : forall path, csv args = Some path ->
                              is_Some (files (fst (run args w)) !! path)).
  { intros path Hp. rewrite (run_result _ _ _ Hf Hne) in *. cbv zeta in *.
    rewrite Hp in *.
    destruct (wants (Some path) args (files w)) as [pc|] eqn:Hw.
    - apply wants_cases in Hw as [[= <-] _].
      destruct (snd (csv_rows_text _)); [discriminate Hv |].
      cbn [fst files]. apply insert_is_some.
    - discriminate Hv. }
  assert (H2 : snd (run args (fst (run args w))) = Returned 0%Z).
  { destruct (fst (run args w)) as [fs' out'] eqn:Hw'. cbn [files] in *.
    rewrite (run_result _ (mkWorld fs' out') contents Hsrc Hne). cbv zeta.
    cbn [files stdout].
    rewrite (wants_existing (csv args) args fs' Ho) by exact Hcsv.
    reflexivity. }
  split; [exact H2 |]. intros path Hp. split; [now apply Hcsv |].
  apply run_keeps; [exact Ho | now apply Hcsv].
Qed.

Lemma run_after_abort_succeeds_witness :
  let w := mkWorld (<["acs.html" := Sample.indented3]> ∅) [] in
  snd (run (Sample.args false) (fst (run (Sample.args false) w))) = Returned 0%Z.
Proof.
  cbv zeta. apply run_after_abort_succeeds; [reflexivity |].
  vm_compute. reflexivity.
Defined.


Lemma insert_twice (pc pr c t : string) (fs : gmap string string) :
  <[pr := t]> (<[pc := c]> (<[pr := t]> (<[pc := c]> fs)))
  = <[pr := t]> (<[pc := c]> fs).
Proof.
  apply map_eq. intros i.
  destruct (decide (pr = i)) as [->|Hr]; [now rewrite !lookup_insert_eq |].
  destruct (decide (pc = i)) as [->|Hc];
    repeat (rewrite lookup_insert_eq || rewrite lookup_insert_ne by assumption);
    reflexivity.
Qed.

(** X17.  With the overwrite flag, and a source that is not one of the
    destinations, running again changes nothing more: the second run
    ends as the first did and leaves the files as the first left them. *)
Theorem run_again_overwrite_stable (args : Args) (w : World) :
  overwrite args = true ->
  csv args <> Some (filename args) -> rs args <> Some (filename args) ->
  snd (run args (fst (run args w))) = snd (run args w)
  /\ files (fst (run args (fst (run args w)))) = files (fst (run args w)).
Proof.
  intros Ho Hc Hr.
  destruct (files w !! filename args) as [contents|] eqn:Hf.
  - assert (Hsrc : files (fst (run args w)) !! filename args = Some contents).
    { rewrite <- Hf. now apply (proj1 (run_frame args w (filename args))). }
    destruct (decide (extract (indent args) contents = [])) as [He|Hne].
    + rewrite (run_no_matches _ _ _ Hf He) in *. cbn [fst snd files] in *.
      now rewrite (run_no_matches args (mkWorld (files w) _) contents Hsrc He).
    + rewrite (run_result _ (fst (run args w)) contents Hsrc Hne).
      rewrite (run_result _ w contents Hf Hne). cbv zeta.
      rewrite !(wants_overwrite _ _ _ Ho).
      destruct (csv args) as [pc|]; destruct (rs args) as [pr|];
        destruct (snd (csv_rows_text (extract (indent args) contents)));
        cbn [fst snd files]; rewrite ?(wants_overwrite _ _ _ Ho);
        cbn [fst snd files]; (split; [reflexivity |]);
        rewrite ?insert_twice, ?insert_insert_eq; reflexivity.
  - assert (Hrun : run args w = (w, Raised FileNotFoundError))
      by (unfold run; now rewrite Hf).
    rewrite !Hrun. cbn [fst snd]. rewrite !Hrun. split; reflexivity.
Qed.

Lemma run_again_overwrite_stable_witness :
  let w := mkWorld (Sample.disk Sample.indented3) [] in
  snd (run (Sample.args true) (fst (run (Sample.args true) w)))
  = snd (run (Sample.args true) w)
  /\ files (fst (run (Sample.args true) (fst (run (Sample.args true) w))))
     = files (fst (run (Sample.args true) w)).
Proof.
  cbv zeta. apply run_again_overwrite_stable;
    [reflexivity | discriminate | discriminate].
Defined.

End Outcomes.

(** ** More on the scan and on the generated variants *)

Section ScanMore.

Lemma count_starts_cons (sub : string) (c : ascii) (r : string) :
  count_starts sub (String c r)
  = (if Py.startswith sub (String c r) then 1 else 0) + count_starts sub r.
Proof. reflexivity. Qed.

Lemma exec_starts_tr (indent : Z) (s : string) :
  is_Some (Re.exec (pattern indent) s) -> Py.startswith "<tr>" s = true.
Proof.
  intros [res He]. destruct (Py.startswith "<tr>" s) eqn:Hs; [reflexivity |].
  rewrite (exec_needs_tr indent s Hs) in He. discriminate He.
Qed.

Lemma findall_from_bound (indent : Z) (s : string) (k : nat) :
  List.length (Re.findall_from (pattern indent) s k) <= count_starts "<tr>" s.
Proof.
  revert k. induction s as [|c s IH]; intros k.
  - cbn [Re.findall_from]. rewrite exec_needs_tr by reflexivity. cbn. lia.
  - rewrite count_starts_cons. cbn [Re.findall_from]. destruct k as [|k].
    + destruct (Re.exec (pattern indent) (String c s)) as [[marks rest]|] eqn:He.
      * rewrite (exec_starts_tr indent (String c s)) by (rewrite He; eauto).
        cbn [List.length]. specialize (IH (String.length (String c s) - String.length rest - 1)).
        lia.
      * specialize (IH 0). lia.
    + specialize (IH k). lia.
Qed.

(** X10.  The scan never returns more records than there are places in
    the text where a row opens. *)
Theorem extract_at_most_one_per_opening (indent : Z) (contents : string) :
  List.length (extract indent contents) <= count_starts "<tr>" contents.
Proof. apply findall_from_bound. Qed.

Lemma append_inj_head (p x y : string) : p ++ x = p ++ y <-> x = y.
Proof. split; [apply append_inv_head | now intros ->]. Qed.

(** X11.  The variants the generated enum declares are pairwise distinct
    exactly when the identifiers of the records are: records that share
    a GROUP token but differ in the sub-group give different variants,
    and a repeated identifier gives a repeated variant. *)
Theorem write_rust_variants_distinct_iff (matches : list (string * string))
    (rust_filename : string) (fs : gmap string string) :
  Forall record_shape matches ->
  exists code,
    write_rust matches rust_filename fs
    = (<[rust_filename := code]> fs, Returned tt)
    /\ (List.NoDup (variant_decls code) <-> List.NoDup (map fst matches)).
Proof.
  intros Hs. exists (rust_text matches). split; [apply write_rust_text |].
  rewrite (variant_decls_text _ Hs).
  replace (map variant_line matches) with (map (append "    ") (map fst matches))
    by (rewrite map_map; reflexivity).
  split.
  - apply NoDup_map_inv.
  - induction 1 as [|x l Hx _ IH]; cbn [map]; constructor; [| exact IH].
    intros (y & Hy & Hin)%in_map_iff. apply append_inv_head in Hy. congruence.
Qed.

Lemma write_rust_variants_distinct_iff_witness :
  exists code,
    write_rust [("B01001_001E", "Estimate!!Total:"); ("B01001_002E", "Estimate!!Male:")]
      "out.rs" ∅ = (<["out.rs" := code]> ∅, Returned tt)
    /\ (List.NoDup (variant_decls code)
        <-> List.NoDup (map fst [("B01001_001E", "Estimate!!Total:");
                                 ("B01001_002E", "Estimate!!Male:")])).
Proof.
  apply write_rust_variants_distinct_iff.
  repeat constructor; try discriminate; try reflexivity.
  - exists "B01001", "001E". repeat split; discriminate.
  - exists "B01001", "002E". repeat split; discriminate.
Defined.

End ScanMore.

(** ** Scanning a table laid out at another indent *)

Section WrongIndent.

Lemma startswith_append (p q y : string) :
  Py.startswith (p ++ q) (p ++ y) = Py.startswith q y.
Proof.
  induction p as [|c p IH]; [reflexivity |].
  cbn [append Py.startswith]. now rewrite Ascii.eqb_refl.
Qed.

Lemma startswith_prefix_false (p q t : string) :
  Py.startswith p t = false -> Py.startswith (p ++ q) t = false.
Proof.
  revert t. induction p as [|c p IH]; intros t; [discriminate |].
  cbn [append Py.startswith]. destruct t as [|d t]; [reflexivity |].
  destruct (Ascii.eqb c d); [apply IH | reflexivity].
Qed.

(** Two runs of other characters that both end at a less-than sign. *)
Lemma startswith_until_lt (x x' v : string) :
  all_chars not_lt x = true -> all_chars not_lt x' = true ->
  Py.startswith (x ++ "<") (x' ++ String "<" v) = true -> x = x'.
Proof.
  revert x'. induction x as [|a x IH]; intros [|a' x']; cbn [all_chars append Py.startswith].
  - reflexivity.
  - intros _ [Ha _]%andb_true_iff. unfold not_lt in Ha.
    rewrite Ascii.eqb_sym. apply negb_true_iff in Ha. now rewrite Ha.
  - intros [Ha _]%andb_true_iff _. unfold not_lt in Ha.
    apply negb_true_iff in Ha. now rewrite Ha.
  - intros [_ Hx]%andb_true_iff [_ Hx']%andb_true_iff.
    destruct (Ascii.eqb_spec a a') as [<-|]; [| discriminate].
    intros H. now rewrite (IH _ Hx Hx' H).
Qed.


Lemma exec_row_opening (indent : Z) (t : string) :
  indent <> 0%Z -> is_Some (Re.exec (pattern indent) t) ->
  Py.startswith (row_opening indent) t = true.
Proof.
  intros Hn [[marks rest] He].
  destruct (exec_row _ _ _ _ He) as (r & _ & -> & _).
  unfold row_text, row_sep, row_opening. apply Z.eqb_neq in Hn. rewrite Hn.
  rewrite !append_assoc.
  now rewrite !startswith_append.
Qed.

(** Inside an attribute value no row opens with a line feed after it:
    the value holds no line feed and a double quote follows it. *)
Lemma opening_not_in_value (more x y : string) (a : ascii) :
  all_chars Re.dot (String a x) = true ->
  Py.startswith ("<tr>" ++ Py.nl ++ more) (String a x ++ String (Py.chr 34) y) = false.
Proof.
  assert (Hq : forall c, Ascii.eqb c (Py.chr 34) = true -> Ascii.eqb c (Py.chr 10) = false)
    by (intros c ->%Ascii.eqb_eq; reflexivity).
  assert (Hd : forall c, Re.dot c = true -> Ascii.eqb (Py.chr 10) c = false)
    by (intros c H; unfold Re.dot in H; rewrite Ascii.eqb_sym; now apply negb_true_iff in H).
  cbn [all_chars]. intros [_ Hx]%andb_true_iff.
  unfold Py.nl, Py.str1. cbn [append Py.startswith].
  destruct (Ascii.eqb "<" a); [| reflexivity].
  destruct x as [|b x]; cbn [append all_chars] in *; [reflexivity |].
  apply andb_true_iff in Hx as [_ Hx].
  destruct (Ascii.eqb "t" b); [| reflexivity].
  destruct x as [|c x]; cbn [append all_chars] in *; [reflexivity |].
  apply andb_true_iff in Hx as [_ Hx].
  destruct (Ascii.eqb "r" c); [| reflexivity].
  destruct x as [|e x]; cbn [append all_chars] in *; [reflexivity |].
  apply andb_true_iff in Hx as [_ Hx].
  destruct (Ascii.eqb ">" e); [| reflexivity].
  destruct x as [|f x]; cbn [append all_chars] in *; [reflexivity |].
  apply andb_true_iff in Hx as [Hf _]. now rewrite (Hd _ Hf).
Qed.

Lemma contains_skip_value (more x y : string) :
  all_chars Re.dot x = true ->
  contains (String "<" (String "t" (String "r" (String ">"
              (String (Py.chr 10) more))))) (x ++ String (Py.chr 34) y)
  = contains (String "<" (String "t" (String "r" (String ">"
                (String (Py.chr 10) more))))) (String (Py.chr 34) y).
Proof.
  change (String "<" (String "t" (String "r" (String ">"
            (String (Py.chr 10) more))))) with ("<tr>" ++ Py.nl ++ more).
  induction x as [|a x IH]; [reflexivity |]. intros H.
  pose proof H as H'. cbn [all_chars] in H'. apply andb_true_iff in H' as [_ Hx].
  change (String a x ++ String (Py.chr 34) y)
    with (String a (x ++ String (Py.chr 34) y)).
  rewrite contains_cons.
  change (String a (x ++ String (Py.chr 34) y))
    with (String a x ++ String (Py.chr 34) y).
  now rewrite (opening_not_in_value more x y a H), IH.
Qed.

Lemma row_sep_differ (scan layout : Z) :
  scan <> 0%Z -> layout <> 0%Z -> row_sep scan <> row_sep layout ->
  Py.spaces scan <> Py.spaces layout.
Proof.
  intros Hs Hl H Heq. apply H. unfold row_sep.
  apply Z.eqb_neq in Hs, Hl. now rewrite Hs, Hl, Heq.
Qed.

(** Scanning for rows at a non-zero indent [scan]: one row of a table
    laid out differently is passed without any opening found. *)
Lemma walk_row_scan (scan layout : Z) (r : Row) (y : string) :
  scan <> 0%Z -> row_sep scan <> row_sep layout -> row_shape r ->
  contains (row_opening scan) (row_text layout r ++ row_end layout ++ y)
  = contains (row_opening scan) y.
Proof.
  intros Hs Hdiff (HA & HB & HI%identifier_all_word & _ & HL).
  apply (all_chars_impl _ _ _ word_not_lt) in HI.
  apply (all_chars_impl _ _ _ name_pat_not_lt) in HL.
  assert (Hsp : forall n, all_chars not_lt (Py.spaces n) = true)
    by (intros n; now apply spaces_all).
  unfold row_text, row_end, row_sep, row_opening.
  destruct (layout =? 0)%Z eqn:Hl.
  - (* the table is on one line *)
    unfold Py.nl, Py.dq, Py.str1. rewrite !append_assoc. cbn [append].
    repeat first
      [ rewrite contains_skip_char by reflexivity
      | rewrite (contains_skip_value (Py.spaces scan ++ "<")) by assumption
      | rewrite (contains_skip_block "<") by assumption ].
    reflexivity.
  - (* the table is indented, by another number of spaces *)
    apply Z.eqb_neq in Hl.
    pose proof (row_sep_differ scan layout Hs Hl Hdiff) as Hne.
    assert (Hopen : forall v,
               Py.startswith ("<tr>" ++ Py.nl ++ Py.spaces scan ++ "<")
                 ("<tr>" ++ Py.nl ++ Py.spaces layout ++ String "<" v) = false).
    { intros v.
      change ("<tr>" ++ Py.nl ++ Py.spaces scan ++ "<")
        with (("<tr>" ++ Py.nl) ++ Py.spaces scan ++ "<").
      change ("<tr>" ++ Py.nl ++ Py.spaces layout ++ String "<" v)
        with (("<tr>" ++ Py.nl) ++ Py.spaces layout ++ String "<" v).
      rewrite startswith_append.
      destruct (Py.startswith (Py.spaces scan ++ "<")
                  (Py.spaces layout ++ String "<" v)) eqn:E; [| reflexivity].
      apply startswith_until_lt in E; [contradiction | apply Hsp | apply Hsp]. }
    rewrite !append_assoc.
    change ("<tr>" ++ Py.nl ++ Py.spaces layout ++ "<td><a href=" ++ ?z)
      with ("<tr>" ++ Py.nl ++ Py.spaces layout ++ String "<" ("td><a href=" ++ z)).
    unfold Py.nl, Py.dq, Py.str1 in *. cbn [append] in *.
    rewrite contains_skip_char by apply Hopen.
    repeat first
      [ rewrite contains_skip_char by reflexivity
      | rewrite (contains_skip_value (Py.spaces scan ++ "<")) by assumption
      | rewrite (contains_skip_block "<") by (assumption || apply Hsp) ].
    reflexivity.
Qed.

(** Scanning at indent 0: one row of an indented table is passed without
    any opening found, when its attribute values hold no markup. *)
Lemma walk_row_0 (layout : Z) (r : Row) (y : string) :
  layout <> 0%Z -> row_shape r -> plain_attributes r ->
  contains "<tr><" (row_text layout r ++ row_end layout ++ y) = contains "<tr><" y.
Proof.
  intros Hn (_ & _ & HI%identifier_all_word & _ & HL) [HA HB].
  apply (all_chars_impl _ _ _ word_not_lt) in HI.
  apply (all_chars_impl _ _ _ name_pat_not_lt) in HL.
  assert (Hsp : all_chars not_lt (Py.spaces layout) = true)
    by now apply spaces_all.
  unfold row_text, row_end, row_sep. apply Z.eqb_neq in Hn. rewrite Hn.
  unfold Py.nl, Py.dq, Py.str1. rewrite !append_assoc. cbn [append].
  repeat first
    [ rewrite contains_skip_char by reflexivity
    | rewrite (contains_skip_block "<") by assumption ].
  reflexivity.
Qed.

Lemma document_no_opening (scan layout : Z) (rows : list Row) :
  row_sep scan <> row_sep layout -> Forall row_shape rows ->
  (scan = 0%Z -> Forall plain_attributes rows) ->
  contains (if (scan =? 0)%Z then "<tr><" else row_opening scan)
    (document layout rows) = false.
Proof.
  intros Hdiff Hshape Hplain.
  destruct (Z.eqb_spec scan 0) as [->|Hs].
  - specialize (Hplain eq_refl).
    assert (Hl : layout <> 0%Z) by (intros ->; now apply Hdiff).
    induction Hshape as [|r rows Hr _ IH]; [reflexivity |].
    apply Forall_cons_1 in Hplain as [Hp Hplain]. cbn [document].
    rewrite (walk_row_0 layout r _ Hl Hr Hp). now apply IH.
  - clear Hplain. induction Hshape as [|r rows Hr _ IH]; [reflexivity |].
    cbn [document]. now rewrite (walk_row_scan scan layout r _ Hs Hdiff Hr).
Qed.

(** X12.  A table of well-shaped rows laid out at one indent gives no
    record when it is scanned at an indent whose separator differs: the
    run then ends on its no-matches path.  For the scan at indent 0 the
    attribute values must hold no markup. *)
Theorem extract_wrong_indent (scan layout : Z) (rows : list Row) :
  row_sep scan <> row_sep layout ->
  Forall row_shape rows ->
  (scan = 0%Z -> Forall plain_attributes rows) ->
  extract scan (document layout rows) = [].
Proof.
  intros Hdiff Hshape Hplain.
  pose proof (document_no_opening scan layout rows Hdiff Hshape Hplain) as Hc.
  apply findall_from_nil. intros t Ht.
  destruct (Re.exec (pattern scan) t) as [res|] eqn:He; [| reflexivity].
  assert (Hsome : is_Some (Re.exec (pattern scan) t)) by (rewrite He; eauto).
  pose proof (contains_suffix _ _ _ Hc Ht) as Hstart.
  destruct (Z.eqb_spec scan 0) as [->|Hs].
  - rewrite (exec_0_opening t Hsome) in Hstart. discriminate Hstart.
  - rewrite (exec_row_opening scan t Hs Hsome) in Hstart. discriminate Hstart.
Qed.

Lemma extract_wrong_indent_witness :
  extract 4 (document 2 [Sample.row_a; Sample.row_b]) = []
  /\ extract 2 (document 0 [Sample.row_a; Sample.row_b]) = []
  /\ extract 0 (document 2 [Sample.row_a; Sample.row_b]) = [].
Proof.
  assert (Hshape : Forall row_shape [Sample.row_a; Sample.row_b]).
  { constructor; [apply row_a_shape |].
    constructor; [apply row_b_shape | constructor]. }
  split; [| split].
  - apply extract_wrong_indent; [vm_compute; discriminate | exact Hshape | discriminate].
  - apply extract_wrong_indent; [vm_compute; discriminate | exact Hshape | discriminate].
  - apply extract_wrong_indent; [vm_compute; discriminate | exact Hshape |].
    intros _. repeat constructor.
Defined.

End WrongIndent.

(** ** Rows with other text around them *)

Section Gaps.

Lemma no_straddle (x y t : string) :
  quiet x -> y = EmptyString \/ Py.startswith "<" y = true ->
  suffix_of t x -> t <> EmptyString ->
  Py.startswith "<tr>" (t ++ y) = false.
Proof.
  intros Hx Hy Ht Hne. pose proof (contains_suffix _ _ _ Hx Ht) as Hs.
  assert (Hy' : forall p, Py.startswith (String p EmptyString) y = true -> p = "<"%char).
  { intros p Hp. destruct Hy as [->|Hy]; [discriminate Hp |].
    destruct y as [|d y]; [discriminate Hy |]. cbn [Py.startswith] in Hy, Hp.
    destruct (Ascii.eqb_spec "<" d) as [<-|]; [| discriminate Hy].
    destruct (Ascii.eqb p "<") eqn:E; [now apply Ascii.eqb_eq in E | discriminate Hp]. }
  assert (Hy2 : forall p q, p <> "<"%char -> Py.startswith (String p q) y = false).
  { intros p q Hp. destruct y as [|d y]; [reflexivity |].
    cbn [Py.startswith]. destruct (Ascii.eqb_spec p d) as [->|]; [| reflexivity].
    exfalso. apply Hp. apply Hy'. cbn [Py.startswith]. now rewrite Ascii.eqb_refl. }
  assert (Hcons : forall c p d u,
             Py.startswith (String c p) (String d u)
             = if Ascii.eqb c d then Py.startswith p u else false)
    by reflexivity.
  destruct t as [|a [|b [|c [|e t]]]]; [congruence | | | |]; cbn [append].
  - rewrite Hcons. destruct (Ascii.eqb "<" a); [| reflexivity].
    now apply Hy2.
  - rewrite !Hcons. destruct (Ascii.eqb "<" a); [| reflexivity].
    destruct (Ascii.eqb "t" b); [| reflexivity]. now apply Hy2.
  - rewrite !Hcons. destruct (Ascii.eqb "<" a); [| reflexivity].
    destruct (Ascii.eqb "t" b); [| reflexivity].
    destruct (Ascii.eqb "r" c); [| reflexivity]. now apply Hy2.
  - exact Hs.
Qed.

Lemma findall_skip_prefix (p : list Re.item) (x y : string) :
  (forall t, suffix_of t x -> t <> EmptyString -> Re.exec p (t ++ y) = None) ->
  Re.findall_from p (x ++ y) 0 = Re.findall_from p y 0.
Proof.
  induction x as [|a x IH]; intros H; [reflexivity |].
  cbn [append]. rewrite findall_from_miss.
  - apply IH. intros t Ht Hne. apply H; [now apply suffix_of_cons | exact Hne].
  - apply (H (String a x)); [apply suffix_of_refl | discriminate].
Qed.

Lemma rows_with_gaps_head (indent : Z) (rows : list (Row * string)) :
  rows_with_gaps indent rows = EmptyString
  \/ Py.startswith "<" (rows_with_gaps indent rows) = true.
Proof.
  destruct rows as [|[r gap] rows]; [now left | right].
  cbn [rows_with_gaps]. destruct (row_text_cons indent r) as [m ->]. reflexivity.
Qed.

Lemma findall_skip_quiet (indent : Z) (x : string) (rows : list (Row * string)) :
  quiet x ->
  Re.findall_from (pattern indent) (x ++ rows_with_gaps indent rows) 0
  = Re.findall_from (pattern indent) (rows_with_gaps indent rows) 0.
Proof.
  intros Hx. apply findall_skip_prefix. intros t Ht Hne.
  apply exec_needs_tr.
  exact (no_straddle x _ t Hx (rows_with_gaps_head indent rows) Ht Hne).
Qed.

(** X13.  At a non-zero indent, text in which no row opens does not
    disturb the scan, whether it comes before the first row or after any
    row: the records of the well-shaped rows are returned, one each, in
    document order. *)
Theorem extract_rows_with_gaps (indent : Z) (before : string)
    (rows : list (Row * string)) :
  indent <> 0%Z ->
  quiet before ->
  Forall (fun rg => row_shape (fst rg) /\ quiet (snd rg)) rows ->
  extract indent (before ++ rows_with_gaps indent rows)
  = map (fun rg => record_of (fst rg)) rows.
Proof.
  intros Hn Hb Hrows. unfold extract, Re.findall.
  rewrite (findall_skip_quiet indent before rows Hb).
  induction Hrows as [|[r gap] rows [Hr Hg] _ IH]; cbn [rows_with_gaps map fst snd] in *.
  - cbn [Re.findall_from]. now rewrite exec_needs_tr.
  - destruct (exec_row_exact indent r (gap ++ rows_with_gaps indent rows) Hn Hr)
      as (marks & He & Hgr).
    destruct (row_text_cons indent r) as [m Hm]. rewrite Hm in *.
    rewrite (findall_from_match _ _ _ _ _ He), Hgr. f_equal.
    now rewrite (findall_skip_quiet indent gap rows Hg).
Qed.

Lemma extract_rows_with_gaps_witness :
  extract 2 ("<table>" ++ Py.nl
             ++ rows_with_gaps 2 [ (Sample.row_a, Py.nl ++ "</tr>" ++ Py.nl)
                                 ; (Sample.row_b, "</tr></table>") ])
  = [record_of Sample.row_a; record_of Sample.row_b].
Proof.
  apply (extract_rows_with_gaps 2 ("<table>" ++ Py.nl)
           [ (Sample.row_a, Py.nl ++ "</tr>" ++ Py.nl)
           ; (Sample.row_b, "</tr></table>") ]).
  - discriminate.
  - reflexivity.
  - constructor; [split; [apply row_a_shape | reflexivity] |].
    constructor; [split; [apply row_b_shape | reflexivity] | constructor].
Defined.

End Gaps.

(** ** Rows at indent 0 *)

Section IndentZero.

Lemma pattern_head_tail (indent : Z) :
  pattern indent
  = (Re.lits (row_head indent) ++ Re.Star Re.dot :: pattern_tail indent)%list.
Proof. rewrite pattern_sep. reflexivity. Qed.

Lemma row_text_head_tail (indent : Z) (r : Row) :
  row_text indent r = row_head indent ++ href r ++ row_tail indent r.
Proof. unfold row_text, row_head, row_tail. now rewrite !append_assoc. Qed.

Lemma exec_lits (x : string) (p : list Re.item) (y : string) :
  Re.exec (Re.lits x ++ p)%list (x ++ y) = Re.exec p y.
Proof.
  induction x as [|c x IH]; [reflexivity |].
  cbn [Re.lits list_ascii_of_string map app append Re.exec].
  rewrite Ascii.eqb_refl. exact IH.
Qed.

(** A greedy repetition settles on the longest stretch after which the
    rest of the pattern matches. *)
Lemma greedy_none {R : Type} (cls : ascii -> bool) (k : string -> option R)
    (s : string) :
  (forall u t, s = u ++ t -> all_chars cls u = true -> k t = None) ->
  Re.greedy cls k s = None.
Proof.
  induction s as [|c s IH]; intros H; cbn [Re.greedy].
  - now apply (H EmptyString).
  - assert (Hk : k (String c s) = None) by now apply (H EmptyString).
    destruct (cls c) eqn:Hc; [| exact Hk].
    rewrite IH; [exact Hk |]. intros u t -> Hu.
    apply (H (String c u)); [reflexivity |]. cbn [all_chars]. now rewrite Hc.
Qed.

Lemma greedy_last {R : Type} (cls : ascii -> bool) (k : string -> option R)
    (x t : string) (res : R) :
  all_chars cls x = true -> k t = Some res ->
  (forall u t', u <> EmptyString -> t = u ++ t' -> all_chars cls u = true ->
                k t' = None) ->
  Re.greedy cls k (x ++ t) = Some res.
Proof.
  intros Hx Hk Hlonger. induction x as [|c x IH].
  - destruct t as [|c t]; [exact Hk |]. cbn [append Re.greedy].
    destruct (cls c) eqn:Hc; [| exact Hk].
    rewrite greedy_none; [exact Hk |]. intros u t' -> Hu.
    apply (Hlonger (String c u)); [discriminate | reflexivity |].
    cbn [all_chars]. now rewrite Hc.
  - cbn [all_chars] in Hx. apply andb_true_iff in Hx as [Hc Hx].
    cbn [append Re.greedy]. now rewrite Hc, (IH Hx).
Qed.

(** What the rest of the pattern matches, and that it matches the rest
    of a well-shaped row. *)
Lemma Matches_tail (indent : Z) (s : string) marks rest :
  Matches (pattern_tail indent) s marks rest ->
  exists r : Row,
    row_shape r /\ s = row_tail indent r ++ rest
    /\ Re.groups2 marks = (ident r, label r).
Proof.
  intros H. unfold pattern_tail in H.
  apply Matches_lits in H as (t3 & -> & H). cbn [app] in H.
  apply Matches_star_inv in H as (B & t4 & -> & HB & H).
  apply Matches_lits in H as (t5 & -> & H). cbn [app] in H.
  apply Matches_paren_inv in H as (ms1 & -> & H).
  apply Matches_plus_inv in H as (c1 & W1 & t6 & -> & HW1 & H).
  apply Matches_lit_inv in H as (t7 & -> & H).
  apply Matches_plus_inv in H as (c2 & W2 & t8 & -> & HW2 & H).
  apply Matches_paren_inv in H as (ms2 & -> & H).
  apply Matches_lits in H as (t9 & -> & H). cbn [app] in H.
  apply Matches_paren_inv in H as (ms3 & -> & H).
  apply Matches_plus_inv in H as (c3 & L & t10 & -> & HL & H).
  apply Matches_paren_inv in H as (ms4 & -> & H).
  rewrite <- (List.app_nil_r (Re.lits "</td>")) in H.
  apply Matches_lits in H as (t11 & -> & H).
  apply Matches_end_inv in H as [-> ->].
  exists (mkRow EmptyString B (String c1 W1 ++ "_" ++ String c2 W2) (String c3 L)).
  split; [| split].
  - repeat split; cbn [href anchor ident label]; try assumption; try discriminate.
    exists (String c1 W1), (String c2 W2). repeat split; auto; discriminate.
  - unfold row_tail. cbn [href anchor ident label].
    rewrite !append_assoc. reflexivity.
  - cbn [Re.groups2 ident label]. f_equal.
    + etransitivity;
        [| apply (between_append (String c1 W1 ++ "_" ++ String c2 W2)
                    (("</a></td>" ++ row_sep indent ++ "<td>")
                     ++ String c3 L ++ "</td>" ++ t11))].
      f_equal. rewrite !append_assoc. reflexivity.
    + apply (between_append (String c3 L) ("</td>" ++ t11)).
Qed.

Lemma tail_Matches (indent : Z) (r : Row) (rest : string) :
  row_shape r ->
  exists marks, Matches (pattern_tail indent) (row_tail indent r ++ rest) marks rest.
Proof.
  destruct r as [A B I L].
  unfold row_shape, identifier_shape, label_shape.
  cbn [href anchor ident label].
  intros (HA & HB & (g & sg & -> & Hg & Hsg & Hgw & Hsgw) & HL0 & HL).
  destruct g as [|c1 W1]; [congruence |].
  destruct sg as [|c2 W2]; [congruence |].
  destruct L as [|c3 L]; [congruence |].
  cbn [all_chars] in Hgw, Hsgw, HL.
  apply andb_true_iff in Hgw as [Hc1 HW1].
  apply andb_true_iff in Hsgw as [Hc2 HW2].
  apply andb_true_iff in HL as [Hc3 HL].
  eexists. unfold pattern_tail, row_tail. cbn [href anchor ident label].
  rewrite !lits_append, <- !List.app_assoc, !append_assoc.
  repeat apply Matches_lits_intro. cbn [app].
  apply M_star; [exact HB |].
  repeat apply Matches_lits_intro. cbn [app].
  apply M_paren. apply (M_plus _ _ c1 W1); [exact Hc1 | exact HW1 |].
  apply (M_lit "_"). apply (M_plus _ _ c2 W2); [exact Hc2 | exact HW2 |].
  apply M_paren.
  repeat apply Matches_lits_intro. cbn [app].
  apply M_paren. apply (M_plus _ _ c3 L); [exact Hc3 | exact HL |].
  apply M_paren.
  rewrite <- (List.app_nil_r (Re.lits "</td>")).
  apply Matches_lits_intro. apply M_end.
Qed.

Lemma split_first_lt (x : string) :
  all_chars not_lt x = true
  \/ exists x1 x2, x = x1 ++ String "<" x2 /\ all_chars not_lt x1 = true.
Proof.
  induction x as [|a x IH]; [now left |].
  cbn [all_chars]. unfold not_lt at 1.
  destruct (Ascii.eqb_spec a "<") as [->|Ha]; cbn [negb andb].
  - right. now exists EmptyString, x.
  - destruct IH as [IH|(x1 & x2 & -> & H1)]; [now left | right].
    exists (String a x1), x2. split; [reflexivity |].
    cbn [all_chars]. unfold not_lt at 1. apply Ascii.eqb_neq in Ha.
    now rewrite Ha, H1.
Qed.

Lemma prefix_before_char (c : ascii) (u z line more : string) :
  all_chars (fun a => negb (Ascii.eqb a c)) u = true ->
  u ++ z = line ++ String c more -> exists v, line = u ++ v.
Proof.
  revert line. induction u as [|a u IH]; intros line Hu H; [now exists line |].
  cbn [all_chars] in Hu. apply andb_true_iff in Hu as [Ha Hu].
  destruct line as [|b line]; cbn [append] in H.
  - injection H as -> _. now rewrite Ascii.eqb_refl in Ha.
  - injection H as -> H. destruct (IH _ Hu H) as [v ->]. now exists v.
Qed.

Lemma startswith_self (sub y : string) : Py.startswith sub (sub ++ y) = true.
Proof.
  rewrite <- (append_nil_r sub) at 1. now rewrite startswith_append.
Qed.

Lemma contains_intro (sub x y : string) : contains sub (x ++ sub ++ y) = true.
Proof.
  induction x as [|a x IH].
  - cbn [append]. destruct (sub ++ y) eqn:E.
    + cbn [contains]. rewrite <- E, startswith_self. reflexivity.
    + rewrite contains_cons, <- E, startswith_self. reflexivity.
  - cbn [append]. rewrite contains_cons, IH. apply orb_true_r.
Qed.

(** After the cell separator of a row that ends its line, the separator
    does not come again on that line. *)
Lemma no_second_cell (L more U2 Z : string) :
  all_chars name_pat L = true ->
  more = EmptyString \/ (exists m, more = Py.nl ++ m) ->
  all_chars Re.dot U2 = true ->
  "/a></td><td>" ++ L ++ "</td>" ++ "</tr>" ++ more = U2 ++ "</a></td><td>" ++ Z ->
  False.
Proof.
  intros HL Hmore HU2 H.
  assert (Hline : contains "</a></td><td>" ("/a></td><td>" ++ L ++ "</td></tr>") = false).
  { pose proof (all_chars_impl _ _ _ name_pat_not_lt HL) as HL'.
    cbn [append].
    repeat first
      [ rewrite contains_skip_char by reflexivity
      | rewrite (contains_skip_block "<") by assumption ].
    reflexivity. }
  assert (Hfound : exists v, "/a></td><td>" ++ L ++ "</td></tr>"
                             = U2 ++ "</a></td><td>" ++ v).
  { destruct Hmore as [->|[m ->]].
    - exists Z. rewrite <- H. now rewrite append_nil_r.
    - destruct (prefix_before_char (Py.chr 10) (U2 ++ "</a></td><td>") Z
                  ("/a></td><td>" ++ L ++ "</td></tr>") m) as [v Hv].
      + rewrite all_chars_append. change (all_chars _ U2) with (all_chars Re.dot U2).
        now rewrite HU2.
      + rewrite !append_assoc. rewrite <- H. reflexivity.
      + exists v. now rewrite Hv, ?append_assoc. }
  destruct Hfound as [v Hv]. rewrite Hv, contains_intro in Hline. discriminate Hline.
Qed.

(** The link text and the label are determined once what comes before
    the link text holds no markup. *)
Lemma core_unique (U U' L L' more rest' : string) :
  all_chars not_lt U = true ->
  all_chars name_pat L = true -> all_chars name_pat L' = true ->
  more = EmptyString \/ (exists m, more = Py.nl ++ m) ->
  all_chars Re.dot U' = true ->
  U ++ "</a></td><td>" ++ L ++ "</td>" ++ "</tr>" ++ more
  = U' ++ "</a></td><td>" ++ L' ++ "</td>" ++ rest' ->
  U = U' /\ L = L' /\ "</tr>" ++ more = rest'.
Proof.
  intros HU HL HL' Hmore HU' H.
  destruct (split_first_lt U') as [Hno|(U1 & U2 & -> & H1)].
  - change ("</a></td><td>" ++ ?z) with (String "<" ("/a></td><td>" ++ z)) in H.
    apply (append_first_char "<") in H as [-> H]; [| exact HU | exact Hno].
    apply (append_inv_head "/a></td><td>") in H.
    change ("</td>" ++ ?z) with (String "<" ("/td>" ++ z)) in H.
    apply (append_first_char "<") in H as [-> H];
      [| exact (all_chars_impl _ _ _ name_pat_not_lt HL)
       | exact (all_chars_impl _ _ _ name_pat_not_lt HL')].
    apply (append_inv_head "/td>") in H. auto.
  - exfalso. rewrite append_assoc in H.
    change ("</a></td><td>" ++ L ++ "</td>" ++ "</tr>" ++ more)
      with (String "<" ("/a></td><td>" ++ L ++ "</td>" ++ "</tr>" ++ more)) in H.
    change (String "<" U2 ++ ?z) with (String "<" (U2 ++ z)) in H.
    apply (append_first_char "<") in H as [_ H]; [| exact HU | exact H1].
    rewrite !all_chars_append in HU'. apply andb_true_iff in HU' as [_ HU2].
    cbn [all_chars] in HU2. apply andb_true_iff in HU2 as [_ HU2].
    exact (no_second_cell L more U2 _ HL Hmore HU2 H).
Qed.

Lemma tail_unique (r r' : Row) (pre pre' more rest' : string) :
  row_shape r -> row_shape r' ->
  markup_free pre -> all_chars Re.dot pre' = true -> markup_free (anchor r) ->
  more = EmptyString \/ (exists m, more = Py.nl ++ m) ->
  pre ++ row_tail 0 r ++ "</tr>" ++ more = pre' ++ row_tail 0 r' ++ rest' ->
  record_of r = record_of r' /\ "</tr>" ++ more = rest'.
Proof.
  intros (_ & _ & HI%identifier_all_word & _ & HL)
         (_ & HB' & HI'%identifier_all_word & _ & HL') Hpre Hpre' HB Hmore H.
  destruct r as [A B I L], r' as [A' B' I' L'].
  unfold row_tail, row_sep, record_of, markup_free in *.
  cbn [href anchor ident label Z.eqb] in *.
  assert (H1 : (pre ++ Py.dq ++ " name=" ++ Py.dq ++ B ++ Py.dq ++ ">" ++ I)
               ++ "</a></td><td>" ++ L ++ "</td>" ++ "</tr>" ++ more
             = (pre' ++ Py.dq ++ " name=" ++ Py.dq ++ B' ++ Py.dq ++ ">" ++ I')
               ++ "</a></td><td>" ++ L' ++ "</td>" ++ rest').
  { rewrite !append_assoc. rewrite !append_assoc in H. exact H. }
  apply core_unique in H1 as (HU & -> & Hrest); try assumption.
  - split; [| exact Hrest]. f_equal.
    assert (H2 : (pre ++ Py.dq ++ " name=" ++ Py.dq ++ B ++ Py.dq) ++ String ">" I
                 = (pre' ++ Py.dq ++ " name=" ++ Py.dq ++ B' ++ Py.dq) ++ String ">" I').
    { rewrite !append_assoc. exact HU. }
    apply append_last_char in H2;
      [exact H2
      | exact (all_chars_impl _ _ _ word_not_gt HI)
      | exact (all_chars_impl _ _ _ word_not_gt HI')].
  - rewrite !all_chars_append, Hpre, HB.
    now rewrite (all_chars_impl _ _ _ word_not_lt HI).
  - rewrite !all_chars_append, Hpre', HB'.
    change (all_chars Re.dot I') with (all_chars not_newline I').
    now rewrite (all_chars_impl _ _ _ word_not_newline HI').
Qed.

(** At indent 0 a well-shaped row that ends its line, with attribute
    values that hold no markup, is matched as itself. *)
Lemma exec_row0_exact (r : Row) (more : string) :
  row_shape r -> plain_attributes r ->
  more = EmptyString \/ (exists m, more = Py.nl ++ m) ->
  exists marks,
    Re.exec (pattern 0) (row_text 0 r ++ "</tr>" ++ more)
    = Some (marks, "</tr>" ++ more)
    /\ Re.groups2 marks = record_of r.
Proof.
  intros Hr [HA HB] Hmore.
  destruct (row_exec 0 r ("</tr>" ++ more) Hr) as [[marks rest'] He].
  destruct (exec_row _ _ _ _ He) as (r' & Hr' & Hs & Hg).
  rewrite !row_text_head_tail, !append_assoc in Hs.
  apply append_inv_head in Hs.
  destruct (tail_unique r r' (href r) (href r') more rest' Hr Hr' HA
              (proj1 Hr') HB Hmore Hs) as [Hrec <-].
  exists marks. split; [exact He |]. now rewrite Hg, Hrec.
Qed.

(** X14.  At indent 0 a table with each row on a line of its own, whose
    attribute values hold no markup, gives the records of its rows, one
    each, in document order. *)
Theorem extract_document_lines (rows : list Row) :
  Forall row_shape rows -> Forall plain_attributes rows ->
  extract 0 (document_lines rows) = map record_of rows.
Proof.
  intros Hshape Hplain. unfold extract, Re.findall.
  induction Hshape as [|r rows Hr _ IH]; cbn [document_lines map].
  - reflexivity.
  - apply Forall_cons_1 in Hplain as [Hp Hplain].
    destruct (exec_row0_exact r (Py.nl ++ document_lines rows) Hr Hp)
      as (marks & He & Hg); [right; eauto |].
    destruct (row_text_cons 0 r) as [m Hm]. rewrite Hm in *.
    rewrite (findall_from_match _ _ _ _ _ He), Hg. f_equal.
    unfold Py.nl, Py.str1. cbn [append].
    do 6 (rewrite findall_from_miss by (apply exec_needs_tr; reflexivity)).
    now apply IH.
Qed.

Lemma extract_document_lines_witness :
  extract 0 (document_lines [Sample.row_a; Sample.row_b])
  = [record_of Sample.row_a; record_of Sample.row_b].
Proof.
  apply (extract_document_lines [Sample.row_a; Sample.row_b]).
  - constructor; [apply row_a_shape |].
    constructor; [apply row_b_shape | constructor].
  - repeat constructor.
Defined.

Lemma word_not_dq (c : ascii) : Re.word c = true -> not_dq c = true.
Proof. destruct c as [[] [] [] [] [] [] [] []]; vm_compute; auto. Qed.

Lemma name_pat_not_dq (c : ascii) : name_pat c = true -> not_dq c = true.
Proof. destruct c as [[] [] [] [] [] [] [] []]; vm_compute; auto. Qed.

Lemma count_dq_free (s : string) :
  all_chars not_dq s = true -> count_char (Py.chr 34) s = 0.
Proof. now apply count_char_all. Qed.

Lemma row_tail_quotes (r : Row) (rest : string) :
  count_char (Py.chr 34) (row_tail 0 r ++ rest)
  = 3 + count_char (Py.chr 34) (anchor r) + count_char (Py.chr 34) (ident r)
    + count_char (Py.chr 34) (label r) + count_char (Py.chr 34) rest.
Proof.
  unfold row_tail, row_sep. cbn [Z.eqb].
  rewrite !count_char_append.
  change (count_char (Py.chr 34) Py.dq) with 1.
  change (count_char (Py.chr 34) " name=") with 0.
  change (count_char (Py.chr 34) ">") with 0.
  change (count_char (Py.chr 34) "</a></td>") with 0.
  change (count_char (Py.chr 34) "<td>") with 0.
  change (count_char (Py.chr 34) "</td>") with 0.
  change (count_char (Py.chr 34) EmptyString) with 0.
  lia.
Qed.

Lemma findall_from_match_at (p : list Re.item) (s rest : string) marks :
  s <> EmptyString ->
  Re.exec p (s ++ rest) = Some (marks, rest) ->
  Re.findall_from p (s ++ rest) 0 = Re.groups2 marks :: Re.findall_from p rest 0.
Proof.
  intros Hs He. destruct s as [|c m]; [congruence |].
  now apply findall_from_match.
Qed.

(** At indent 0 the repetition that reads the link target takes
    everything up to the last place on the line where the rest of the
    pattern matches: whatever one-line text stands before the name
    attribute of the last row, the groups are those of the last row. *)
Lemma exec_one_line (x : string) (r : Row) :
  all_chars Re.dot x = true -> row_shape r ->
  markup_free (anchor r) -> quote_free (anchor r) ->
  exists marks,
    Re.exec (pattern 0) ((row_head 0 ++ x ++ row_tail 0 r) ++ "</tr>")
    = Some (marks, "</tr>")
    /\ Re.groups2 marks = record_of r.
Proof.
  intros Hx Hr HB HQ.
  destruct (tail_Matches 0 r "</tr>" Hr) as [marks0 HM].
  destruct (exec_complete _ _ _ _ HM) as [[marks rest'] He].
  destruct (Matches_tail 0 _ _ _ (exec_sound _ _ _ _ He)) as (r' & Hr' & Hs & Hg).
  assert (Hu : record_of r = record_of r' /\ "</tr>" ++ EmptyString = rest').
  { apply (tail_unique r r' EmptyString EmptyString EmptyString rest' Hr Hr');
      [reflexivity | reflexivity | exact HB | now left |].
    exact Hs. }
  destruct Hu as [Hrec Hrest]. cbn [append] in Hrest. subst rest'.
  exists marks. split; [| now rewrite Hg, Hrec].
  rewrite pattern_head_tail, !append_assoc, exec_lits. cbn [Re.exec].
  apply greedy_last; [exact Hx | exact He |].
  intros u t' Hu Ht Hdot.
  destruct (Re.exec (pattern_tail 0) t') as [[marks' rest'']|] eqn:He'; [| reflexivity].
  exfalso.
  destruct (Matches_tail 0 _ _ _ (exec_sound _ _ _ _ He')) as (r'' & _ & -> & _).
  pose proof (f_equal (count_char (Py.chr 34)) Ht) as Hcount.
  rewrite row_tail_quotes, (count_char_append _ u), row_tail_quotes in Hcount.
  destruct Hr as (_ & _ & HI%identifier_all_word & _ & HL).
  rewrite (count_dq_free _ HQ) in Hcount.
  rewrite (count_dq_free _ (all_chars_impl _ _ _ word_not_dq HI)) in Hcount.
  rewrite (count_dq_free _ (all_chars_impl _ _ _ name_pat_not_dq HL)) in Hcount.
  change (count_char (Py.chr 34) "</tr>") with 0 in Hcount.
  assert (Hu1 : 1 <= count_char (Py.chr 34) u).
  { destruct u as [|c u]; [congruence |].
    unfold row_tail in Ht. injection Ht as <- _.
    rewrite count_char_cons, Ascii.eqb_refl. lia. }
  lia.
Qed.

Lemma row_tail_0_one_line (r : Row) :
  row_shape r -> all_chars Re.dot (row_tail 0 r) = true.
Proof.
  intros (_ & HB & HI%identifier_all_word & _ & HL).
  unfold row_tail, row_sep. cbn [Z.eqb]. rewrite !all_chars_append, HB.
  change (all_chars Re.dot (ident r)) with (all_chars not_newline (ident r)).
  change (all_chars Re.dot (label r)) with (all_chars not_newline (label r)).
  rewrite (all_chars_impl _ _ _ word_not_newline HI).
  now rewrite (all_chars_impl _ _ _ name_pat_not_newline HL).
Qed.

(** Rows that share a line read as one row whose link target holds all
    the rows before the last. *)
Lemma document_one_line (rows : list Row) (last : Row) :
  Forall row_shape rows -> row_shape last ->
  exists x,
    all_chars Re.dot x = true
    /\ document 0 (rows ++ [last])
       = (row_head 0 ++ x ++ row_tail 0 last) ++ "</tr>".
Proof.
  intros Hrows Hlast. induction Hrows as [|r rows Hr _ (x & Hx & IH)].
  - exists (href last). split; [apply Hlast |].
    cbn [app document]. rewrite row_text_head_tail, append_nil_r.
    reflexivity.
  - exists (href r ++ row_tail 0 r ++ "</tr>" ++ row_head 0 ++ x). split.
    + rewrite !all_chars_append, (proj1 Hr), (row_tail_0_one_line r Hr), Hx.
      reflexivity.
    + cbn [app document]. rewrite IH, row_text_head_tail.
      rewrite !append_assoc. reflexivity.
Qed.

(** X15.  At indent 0, of the well-shaped rows that share one line the
    scan returns a single record, that of the last row: the repetition
    that reads the link target of the first row runs over all the rows
    before the last.  The name attribute of the last row is assumed to
    hold no markup and no double quote. *)
Theorem extract_one_line_keeps_last (rows : list Row) (last : Row) :
  Forall row_shape rows -> row_shape last ->
  markup_free (anchor last) -> quote_free (anchor last) ->
  extract 0 (document 0 (rows ++ [last])) = [record_of last].
Proof.
  intros Hrows Hlast HB HQ.
  destruct (document_one_line rows last Hrows Hlast) as (x & Hx & ->).
  destruct (exec_one_line x last Hx Hlast HB HQ) as (marks & He & Hg).
  assert (Hne : row_head 0 ++ x ++ row_tail 0 last <> EmptyString)
    by (unfold row_head; cbn [append]; discriminate).
  unfold extract, Re.findall.
  rewrite (findall_from_match_at _ _ _ _ Hne He), Hg.
  reflexivity.
Qed.

Lemma extract_one_line_keeps_last_witness :
  extract 0 (document 0 ([Sample.row_a; Sample.row_b] ++ [Sample.row_c]))
  = [record_of Sample.row_c].
Proof.
  apply extract_one_line_keeps_last; try reflexivity.
  - constructor; [apply row_a_shape |].
    constructor; [apply row_b_shape | constructor].
  - repeat split; try reflexivity; try discriminate.
    exists "B01003", "001_A". repeat split; discriminate.
Defined.

End IndentZero.
